(** * VLESS-over-WebSocket relay worker: the session protocol engine

    A shallow embedding of [src/index.ts] (the Cloudflare Worker) and the
    properties of its tunnel path: the upgrade gate ([handleVless]), the
    control-header parser ([processVlessHeader]) with its helpers
    ([uuidToBytes], [compareArrays], [connect]) and the message-event wiring
    that relays frames to the outbound socket.

    Conventions of the embedding:
    - a JavaScript number is an [N] (every number the worker computes is a
      non-negative integer, except the result of [parseInt], an [option Z]
      whose [None] is NaN);
    - an [ArrayBuffer] / [Uint8Array] is a [list byte];
    - a JavaScript string is the list of its UTF-16 code units;
    - a thrown exception is the [Throw] branch of [result];
    - side effects (calls of [compareArrays], [connect], socket writes,
      [server.close]) are appended to a log carried by the [World];
    - an asynchronous function that is left waiting is its part up to the
      [await] and its part after it; what happens in between is given by
      the events of the session (a frame, a connection that settles, a
      chunk from the remote end), in any order. *)

From Stdlib Require Import String Ascii List NArith ZArith Lia Bool Decimal DecimalN.
From Stdlib.Strings Require Import Byte.
Import ListNotations.
Local Open Scope N_scope.

(** ** JavaScript strings *)

Module Js.

(** One UTF-16 code unit. *)
Definition unit16 := N.

Definition jsstring := list unit16.

(** An ASCII literal as a JavaScript string. *)
Definition str (s : string) : jsstring :=
  map N_of_ascii (list_ascii_of_string s).

Definition jsstring_eq_dec : forall a b : jsstring, {a = b} + {a <> b} :=
  list_eq_dec N.eq_dec.

(** [a === b] on strings. *)
Definition streq (a b : jsstring) : bool :=
  if jsstring_eq_dec a b then true else false.

(** [s.substring(a, b)] for [0 <= a <= b]: indices are clamped to the length. *)
Definition substring (s : jsstring) (a b : N) : jsstring :=
  firstn (N.to_nat (b - a)) (skipn (N.to_nat a) s).

(** [s.replace(/-/g, '')]: every HYPHEN-MINUS (U+002D) is removed. *)
Definition remove_hyphens (s : jsstring) : jsstring :=
  filter (fun c => negb (c =? 45)) s.

(** [s.padStart(2, '0')]. *)
Definition padStart2 (s : jsstring) : jsstring :=
  match s with
  | [] => [48; 48]
  | [c] => [48; c]
  | _ => s
  end.

(** [arr.join(sep)] on an array of strings. *)
Fixpoint join (sep : jsstring) (l : list jsstring) : jsstring :=
  match l with
  | [] => []
  | [x] => x
  | x :: rest => x ++ sep ++ join sep rest
  end.

(** Decimal digits of a [Decimal.uint], most significant first. *)
Fixpoint uint_units (d : Decimal.uint) : jsstring :=
  match d with
  | Nil => []
  | D0 d => 48 :: uint_units d
  | D1 d => 49 :: uint_units d
  | D2 d => 50 :: uint_units d
  | D3 d => 51 :: uint_units d
  | D4 d => 52 :: uint_units d
  | D5 d => 53 :: uint_units d
  | D6 d => 54 :: uint_units d
  | D7 d => 55 :: uint_units d
  | D8 d => 56 :: uint_units d
  | D9 d => 57 :: uint_units d
  end.

(** [String(n)] / [`${n}`] / [n.toString()] for a non-negative integer. *)
Definition toString10 (n : N) : jsstring := uint_units (N.to_uint n).

(** The lowercase hexadecimal digit of a value below 16. *)
Definition hexdigit (d : N) : unit16 :=
  if d <? 10 then 48 + d else 87 + d.

(** [n.toString(16)] for a byte value [n < 256]: one or two lowercase
    digits, no leading zero. *)
Definition toString16 (n : N) : jsstring :=
  if n <? 16 then [hexdigit n] else [hexdigit (n / 16); hexdigit (n mod 16)].

(** *** [parseInt(s, 16)] *)

(** ECMAScript's StrWhiteSpaceChar: WhiteSpace and LineTerminator. *)
Definition isStrWhiteSpaceChar (c : unit16) : bool :=
  (c =? 9) || (c =? 10) || (c =? 11) || (c =? 12) || (c =? 13) || (c =? 32)
  || (c =? 160) || (c =? 5760) || ((8192 <=? c) && (c <=? 8202))
  || (c =? 8232) || (c =? 8233) || (c =? 8239) || (c =? 8287)
  || (c =? 12288) || (c =? 65279).

Fixpoint trimStart (s : jsstring) : jsstring :=
  match s with
  | c :: rest => if isStrWhiteSpaceChar c then trimStart rest else s
  | [] => []
  end.

(** The value of a hexadecimal digit (either case). *)
Definition hexval (c : unit16) : option N :=
  if (48 <=? c) && (c <=? 57) then Some (c - 48)
  else if (97 <=? c) && (c <=? 102) then Some (c - 87)
  else if (65 <=? c) && (c <=? 70) then Some (c - 55)
  else None.

(** Reads the longest prefix of hexadecimal digits; [None] when it is empty. *)
Fixpoint hexprefix (acc : option N) (s : jsstring) : option N :=
  match s with
  | [] => acc
  | c :: rest =>
      match hexval c with
      | Some d =>
          hexprefix (Some (match acc with Some a => 16 * a + d | None => d end)) rest
      | None => acc
      end
  end.

(** [parseInt(s, 16)]: leading white space is skipped, then an optional
    sign, then an optional [0x]/[0X], then the longest run of hexadecimal
    digits; NaN ([None]) when that run is empty. *)
Definition parseInt16 (s : jsstring) : option Z :=
  let s := trimStart s in
  let '(negative, s) :=
    match s with
    | 45 :: rest => (true, rest)
    | 43 :: rest => (false, rest)
    | _ => (false, s)
    end in
  let s :=
    match s with
    | 48 :: 120 :: rest => rest
    | 48 :: 88 :: rest => rest
    | _ => s
    end in
  match hexprefix None s with
  | Some n => Some (if negative then (- Z.of_N n)%Z else Z.of_N n)
  | None => None
  end.

End Js.
Import Js.

(** ** Bytes and typed arrays *)

Definition ArrayBuffer := list byte.

Definition byteLength (b : ArrayBuffer) : N := N.of_nat (length b).

(** The byte with value [n mod 256]. *)
Definition byte_of_N (n : N) : byte :=
  match Byte.of_N (n mod 256) with
  | Some b => b
  | None => x00
  end.

(** Storing a number into a [Uint8Array] element (ToUint8): NaN becomes 0,
    an integer is reduced modulo 256. *)
Definition ToUint8 (v : option Z) : byte :=
  match v with
  | Some z => byte_of_N (Z.to_N (z mod 256))
  | None => x00
  end.

(** ** Exceptions *)

(** Where the runtime raises a [RangeError]. *)
Inductive range_site :=
  | DataViewOffset                (* DataView.getUint8 / getUint16 *)
  | TypedArrayLength (len : N)    (* new Uint8Array(buf, off, len) *)
  | TypedArrayOffset (off : N).   (* new Uint8Array(buf, off) *)

(** The values thrown on the tunnel path.  The first five constructors are
    the [throw new Error(...)] statements of the source, named after the
    error taxonomy; [TypeError] is what [new Request(url)] raises on a URL
    it cannot parse; [RangeError] is what the runtime raises when a read or
    a view would pass the end of the buffer, the taxonomy's
    TruncatedHeader. *)
Inductive exn :=
  | UnsupportedVersion (version : N)      (* index.ts:105 *)
  | InvalidSecret                         (* index.ts:113, 'Invalid UUID' *)
  | UnsupportedCommand (command : N)      (* index.ts:125 *)
  | InvalidAddressKind (addressType : N)  (* index.ts:158 *)
  | UpstreamConnectFailed (hostname : jsstring) (port : N) (cause : jsstring)
                                          (* index.ts:223 *)
  | TypeError (text : jsstring)           (* new Request(...), index.ts:212 *)
  | RangeError (site : range_site).

Abbreviation TruncatedHeader := RangeError.

(** [e.message]. *)
Definition message (e : exn) : jsstring :=
  match e with
  | UnsupportedVersion v => str "Unsupported VLESS version: " ++ toString10 v
  | InvalidSecret => str "Invalid UUID"
  | UnsupportedCommand c => str "Unsupported command: " ++ toString10 c
  | InvalidAddressKind t => str "Invalid address type: " ++ toString10 t
  | UpstreamConnectFailed h p cause =>
      str "Failed to connect to " ++ h ++ str ":" ++ toString10 p
        ++ str ": " ++ cause
  | TypeError text => text
  | RangeError DataViewOffset =>
      str "Offset is outside the bounds of the DataView"
  | RangeError (TypedArrayLength len) =>
      str "Invalid typed array length: " ++ toString10 len
  | RangeError (TypedArrayOffset off) =>
      str "Start offset " ++ toString10 off
        ++ str " is outside the bounds of the buffer"
  end.

Inductive result (A : Type) :=
  | Ok (a : A)
  | Throw (e : exn).
Arguments Ok {A} a.
Arguments Throw {A} e.

(** ** DataView and Uint8Array views over the message *)

(** [dataView.getUint8(offset)]. *)
Definition getUint8 (message : ArrayBuffer) (offset : N) : result N :=
  match nth_error message (N.to_nat offset) with
  | Some b => Ok (Byte.to_N b)
  | None => Throw (RangeError DataViewOffset)
  end.

(** [dataView.getUint16(offset)], big-endian. *)
Definition getUint16 (message : ArrayBuffer) (offset : N) : result N :=
  match nth_error message (N.to_nat offset),
        nth_error message (N.to_nat (offset + 1)) with
  | Some hi, Some lo => Ok (256 * Byte.to_N hi + Byte.to_N lo)
  | _, _ => Throw (RangeError DataViewOffset)
  end.

(** [new Uint8Array(message, offset, length)]. *)
Definition Uint8Array (message : ArrayBuffer) (offset length : N)
  : result (list byte) :=
  if offset + length <=? byteLength message
  then Ok (firstn (N.to_nat length) (skipn (N.to_nat offset) message))
  else Throw (RangeError (TypedArrayLength length)).

(** [new Uint8Array(message, offset)]: the rest of the buffer. *)
Definition Uint8Array_from (message : ArrayBuffer) (offset : N)
  : result (list byte) :=
  if offset <=? byteLength message
  then Ok (skipn (N.to_nat offset) message)
  else Throw (RangeError (TypedArrayOffset offset)).

(** ** [uuidToBytes] and [compareArrays] (index.ts:233-258) *)

(** The loop body of [uuidToBytes], for [i = from, from+1, ...], [n] times. *)
Fixpoint uuidToBytes_loop (hex : jsstring) (from : N) (n : nat) : list byte :=
  match n with
  | O => []
  | S n' =>
      ToUint8 (parseInt16 (substring hex (from * 2) (from * 2 + 2)))
        :: uuidToBytes_loop hex (from + 1) n'
  end.

Definition uuidToBytes (uuid : jsstring) : list byte :=
  let hex := remove_hyphens uuid in
  uuidToBytes_loop hex 0 16.

(** The [for] loop of [compareArrays]: both arrays have the same length
    when it runs. *)
Fixpoint compareArrays_loop (a b : list byte) : bool :=
  match a, b with
  | x :: a', y :: b' => if Byte.eqb x y then compareArrays_loop a' b' else false
  | _, _ => true
  end.

Definition compareArrays (a b : list byte) : bool :=
  if negb (N.of_nat (length a) =? N.of_nat (length b)) then false
  else compareArrays_loop a b.

(** ** [TextDecoder]: the UTF-8 decoder of the Encoding Standard *)

Module Utf8.

Record state := mkState {
  code_point : N;
  bytes_seen : N;
  bytes_needed : N;
  lower_boundary : N;
  upper_boundary : N
}.

Definition init : state := mkState 0 0 0 0x80 0xBF.

Definition REPLACEMENT : N := 0xFFFD.

(** The decoder's handler when no sequence is open: a code point for an
    ASCII byte, a new state for a lead byte, an error otherwise. *)
Definition lead (b : N) : state * list N :=
  if b <=? 0x7F then (init, [b])
  else if (0xC2 <=? b) && (b <=? 0xDF) then
    (mkState (N.land b 0x1F) 0 1 0x80 0xBF, [])
  else if (0xE0 <=? b) && (b <=? 0xEF) then
    (mkState (N.land b 0xF) 0 2
       (if b =? 0xE0 then 0xA0 else 0x80) (if b =? 0xED then 0x9F else 0xBF), [])
  else if (0xF0 <=? b) && (b <=? 0xF4) then
    (mkState (N.land b 0x7) 0 3
       (if b =? 0xF0 then 0x90 else 0x80) (if b =? 0xF4 then 0x8F else 0xBF), [])
  else (init, [REPLACEMENT]).

(** One byte through the handler.  A byte outside the boundaries ends the
    open sequence with an error and is then read again as a lead byte. *)
Definition step (s : state) (b : N) : state * list N :=
  if bytes_needed s =? 0 then lead b
  else if negb ((lower_boundary s <=? b) && (b <=? upper_boundary s)) then
    let '(s', out) := lead b in (s', REPLACEMENT :: out)
  else
    let cp := N.lor (N.shiftl (code_point s) 6) (N.land b 0x3F) in
    if bytes_seen s + 1 =? bytes_needed s then (init, [cp])
    else (mkState cp (bytes_seen s + 1) (bytes_needed s) 0x80 0xBF, []).

(** The code points of a byte sequence; an unfinished sequence at the end
    of the input is one more error. *)
Fixpoint run (s : state) (bytes : list byte) : list N :=
  match bytes with
  | [] => if bytes_needed s =? 0 then [] else [REPLACEMENT]
  | b :: rest =>
      let '(s', out) := step s (Byte.to_N b) in
      out ++ run s' rest
  end.

(** A code point as UTF-16: itself, or a surrogate pair. *)
Definition units_of_code_point (cp : N) : jsstring :=
  if cp <? 0x10000 then [cp]
  else [0xD800 + (cp - 0x10000) / 0x400; 0xDC00 + (cp - 0x10000) mod 0x400].

(** [ignoreBOM] is false by default: a leading EF BB BF is dropped. *)
Definition strip_bom (bytes : list byte) : list byte :=
  match bytes with
  | xef :: xbb :: xbf :: rest => rest
  | _ => bytes
  end.

(** [new TextDecoder().decode(bytes)]: UTF-8, errors replaced by U+FFFD. *)
Definition decode (bytes : list byte) : jsstring :=
  flat_map units_of_code_point (run init (strip_bom bytes)).

End Utf8.

(** ** The environment and the world *)

(** [interface Env] (index.ts:2-7): four strings.  [PROXY_HOST] is only
    tested for truth (index.ts:162), where a binding that is not set is
    falsy like the empty string: both are [[]] there. *)
Record Env := mkEnv {
  UUID : jsstring;
  VLESS_PATH : jsstring;
  PROXY_HOST : jsstring;
  FALLBACK_HOST : jsstring
}.

Definition SocketId := nat.

(** The calls the tunnel path makes, in the order it makes them. *)
Inductive call :=
  | CallProcessVlessHeader (message : ArrayBuffer)
  | CallCompareArrays (a b : list byte)
  | CallConnect (hostname : jsstring) (port : N)
  | CallWrite (socket : SocketId) (chunk : list byte)
  | CallServerClose (code : N) (reason : jsstring).

(** What [connect] meets: [new Request(url)] may reject the URL, [fetch]
    may reject, or the socket is established. *)
Inductive outcome :=
  | Established
  | FetchRejected (cause : jsstring)
  | RequestInvalid (text : jsstring).

(** The listeners of the server socket's message event: the handler
    registered by [handleVless] (index.ts:51), and the
    [(e) => controller.enqueue(e.data)] of a stream piped to a remote
    socket (index.ts:60 and 67). *)
Inductive listener :=
  | OnFirstMessage
  | EnqueueTo (socket : SocketId).

(** A call of [processVlessHeader] that waits at the [await] of
    index.ts:170 for [fetch] to settle: the values it holds. *)
Record Pending := mkPending {
  pending_host : jsstring;
  pending_port : N;
  pending_header : list byte;    (* rawVlessHeader *)
  pending_data : list byte       (* the bytes after the header *)
}.

Record World := mkWorld {
  network : jsstring -> N -> outcome;  (* the platform's answer to connect *)
  log : list call;                     (* calls so far, oldest first *)
  opened : nat;                        (* sockets returned by connect *)
  listeners : list listener;           (* message listeners, in registration order *)
  closed : bool;                       (* server.close has been called *)
  unread : list (SocketId * list byte);
    (* chunks waiting in remoteSocket.readable *)
  client_frames : list (list byte);
    (* frames passed to server.send, oldest first *)
  pending : list Pending
    (* handler runs waiting for their connection, oldest first *)
}.

Definition add_log (c : call) (w : World) : World :=
  mkWorld (network w) (log w ++ [c]) (opened w) (listeners w) (closed w)
          (unread w) (client_frames w) (pending w).

(** ** Computations: state and exceptions *)

Definition M (A : Type) := World -> result A * World.

Definition ret {A} (a : A) : M A := fun w => (Ok a, w).

Definition bind {A B} (c : M A) (k : A -> M B) : M B :=
  fun w =>
    match c w with
    | (Ok a, w') => k a w'
    | (Throw e, w') => (Throw e, w')
    end.

Definition throw {A} (e : exn) : M A := fun w => (Throw e, w).

Definition lift {A} (r : result A) : M A := fun w => (r, w).

Definition record (c : call) : M unit := fun w => (Ok tt, add_log c w).

Declare Scope vless_scope.
Delimit Scope vless_scope with vless.
Notation "x <- c ;; k" := (bind c (fun x => k))
  (at level 61, c at next level, right associativity) : vless_scope.
Notation "c ;; k" := (bind c (fun _ => k))
  (at level 61, right associativity) : vless_scope.
Local Open Scope vless_scope.

(** ** [connect] (index.ts:211-225) *)

(** The request is built outside the [try], so a URL that does not parse
    raises as it is; a rejected [fetch] is wrapped. *)
Definition connect (hostname : jsstring) (port : N) : M SocketId :=
  fun w =>
    let w := add_log (CallConnect hostname port) w in
    match network w hostname port with
    | RequestInvalid text => (Throw (TypeError text), w)
    | FetchRejected cause =>
        (Throw (UpstreamConnectFailed hostname port cause), w)
    | Established =>
        (Ok (opened w),
         mkWorld (network w) (log w) (S (opened w)) (listeners w) (closed w)
                 (unread w) (client_frames w) (pending w))
    end.

(** [connect] is asynchronous: it runs to the [await] of index.ts:220 when
    it is called, and the rest runs when [fetch] has settled.  The two
    parts, for a caller that may see other events in between. *)

(** Up to the [await]: the request is built and [fetch] is called
    (index.ts:212-220). *)
Definition connect_begin (hostname : jsstring) (port : N) : M unit :=
  fun w =>
    let w := add_log (CallConnect hostname port) w in
    match network w hostname port with
    | RequestInvalid text => (Throw (TypeError text), w)
    | _ => (Ok tt, w)
    end.

(** From the [await] on: [fetch] has settled (index.ts:220-224). *)
Definition connect_resume (hostname : jsstring) (port : N) : M SocketId :=
  fun w =>
    match network w hostname port with
    | RequestInvalid text => (Throw (TypeError text), w)
    | FetchRejected cause =>
        (Throw (UpstreamConnectFailed hostname port cause), w)
    | Established =>
        (Ok (opened w),
         mkWorld (network w) (log w) (S (opened w)) (listeners w) (closed w)
                 (unread w) (client_frames w) (pending w))
    end.

(** [writer.write(data)] on [remoteSocket.writable]; the write is taken to
    succeed. *)
Definition write (socket : SocketId) (data : list byte) : M unit :=
  record (CallWrite socket data).

(** ** [processVlessHeader] (index.ts:97-179) *)

(** The [reduce] callback of the IPv6 case, from index [i] on. *)
Fixpoint ipv6_reduce (acc : jsstring) (i : N) (bytes : list byte) : jsstring :=
  match bytes with
  | [] => acc
  | b :: rest =>
      let acc :=
        if i mod 2 =? 0 then acc ++ (if i =? 0 then [] else str ":") else acc in
      let acc := acc ++ padStart2 (toString16 (Byte.to_N b)) in
      ipv6_reduce acc (i + 1) rest
  end.

(** The [switch (addressType)] (index.ts:136-159): the decoded host and
    the offset after the address. *)
Definition decodeAddress (message : ArrayBuffer) (offset addressType : N)
  : result (jsstring * N) :=
  match addressType with
  | 1 =>
      match Uint8Array message offset 4 with
      | Ok bytes =>
          Ok (join (str ".") (map (fun b => toString10 (Byte.to_N b)) bytes),
              offset + 4)
      | Throw e => Throw e
      end
  | 2 =>
      match getUint8 message offset with
      | Ok domainLength =>
          let offset := offset + 1 in
          match Uint8Array message offset domainLength with
          | Ok bytes => Ok (Utf8.decode bytes, offset + domainLength)
          | Throw e => Throw e
          end
      | Throw e => Throw e
      end
  | 3 =>
      match Uint8Array message offset 16 with
      | Ok ipv6Bytes => Ok (ipv6_reduce [] 0 ipv6Bytes, offset + 16)
      | Throw e => Throw e
      end
  | _ => Throw (InvalidAddressKind addressType)
  end.

(** What the header holds once the address is decoded (index.ts:98-159). *)
Record Parsed := mkParsed {
  parsed_port : N;
  parsed_host : jsstring;
  parsed_offset : N
}.

(** index.ts:98-159: version, UUID, add-ons, command, port, address. *)
Definition parseHeader (message : ArrayBuffer) (env : Env) : M Parsed :=
  let offset := 0 in
  version <- lift (getUint8 message offset) ;;
  let offset := offset + 1 in
  if negb (version =? 0) then throw (UnsupportedVersion version) else
  receivedUuid <- lift (Uint8Array message offset 16) ;;
  let offset := offset + 16 in
  let expectedUuid := uuidToBytes (UUID env) in
  record (CallCompareArrays receivedUuid expectedUuid) ;;
  if negb (compareArrays receivedUuid expectedUuid) then throw InvalidSecret else
  addonsLength <- lift (getUint8 message offset) ;;
  let offset := offset + 1 in
  let offset := offset + addonsLength in
  command <- lift (getUint8 message offset) ;;
  let offset := offset + 1 in
  if negb (command =? 1) then throw (UnsupportedCommand command) else
  port <- lift (getUint16 message offset) ;;
  let offset := offset + 2 in
  addressType <- lift (getUint8 message offset) ;;
  let offset := offset + 1 in
  address <- lift (decodeAddress message offset addressType) ;;
  let '(host, offset) := address in
  ret (mkParsed port host offset).

(** The value [processVlessHeader] returns. *)
Record VlessHeader := mkVlessHeader {
  remoteSocket : SocketId;
  host : jsstring;
  port : N;
  rawVlessHeader : list byte
}.

(** The override of index.ts:162: [env.PROXY_HOST] when it is truthy (not
    empty) and is not the decoded host. *)
Definition resolveHost (env : Env) (host : jsstring) : jsstring :=
  if negb (streq (PROXY_HOST env) []) && negb (streq host (PROXY_HOST env))
  then PROXY_HOST env else host.

Definition processVlessHeader (message : ArrayBuffer) (env : Env)
  : M VlessHeader :=
  record (CallProcessVlessHeader message) ;;
  p <- parseHeader message env ;;
  let host := resolveHost env (parsed_host p) in
  let offset := parsed_offset p in
  rawVlessHeader <- lift (Uint8Array message 0 offset) ;;
  data <- lift (Uint8Array_from message offset) ;;
  remoteSocket <- connect host (parsed_port p) ;;
  write remoteSocket data ;;
  ret (mkVlessHeader remoteSocket host (parsed_port p) rawVlessHeader).

(** [processVlessHeader] up to the [await] of index.ts:170, which is the
    [await] inside [connect]: the header is parsed and the connection is
    asked for. *)
Definition processVlessHeader_begin (message : ArrayBuffer) (env : Env)
  : M Pending :=
  record (CallProcessVlessHeader message) ;;
  p <- parseHeader message env ;;
  let host := resolveHost env (parsed_host p) in
  let offset := parsed_offset p in
  rawVlessHeader <- lift (Uint8Array message 0 offset) ;;
  data <- lift (Uint8Array_from message offset) ;;
  connect_begin host (parsed_port p) ;;
  ret (mkPending host (parsed_port p) rawVlessHeader data).

(** [processVlessHeader] from that [await] on (index.ts:170-178). *)
Definition processVlessHeader_resume (c : Pending) : M VlessHeader :=
  remoteSocket <- connect_resume (pending_host c) (pending_port c) ;;
  write remoteSocket (pending_data c) ;;
  ret (mkVlessHeader remoteSocket (pending_host c) (pending_port c)
         (pending_header c)).

(** ** [handleVless] (index.ts:40-89) *)

(** [s.toLowerCase()], as far as the comparison with ['websocket'] can
    tell: the letters whose lowercase form is an ASCII letter (A-Z and
    U+212A KELVIN SIGN) and the capitals of Latin-1; any other code unit
    is left as it is, and neither it nor its real lowercase form is
    ASCII. *)
Definition toLowerCase_unit (c : unit16) : unit16 :=
  if (65 <=? c) && (c <=? 90) then c + 32
  else if (192 <=? c) && (c <=? 222) && negb (c =? 215) then c + 32
  else if c =? 8490 then 107
  else c.

Definition toLowerCase (s : jsstring) : jsstring := map toLowerCase_unit s.

(** The part of a [Request] the tunnel path reads:
    [request.headers.get('Upgrade')], [None] for [null]. *)
Record Request := mkRequest {
  upgradeHeader : option jsstring
}.

Record Response := mkResponse {
  status : N;
  body : option jsstring;
  webSocket : bool    (* the response carries the client end of the pair *)
}.

(** [server.addEventListener('message', l)]. *)
Definition addMessageListener (l : listener) : M unit :=
  fun w =>
    (Ok tt,
     mkWorld (network w) (log w) (opened w) (listeners w ++ [l]) (closed w)
             (unread w) (client_frames w) (pending w)).

(** [server.close(code, reason)]; the call is taken to succeed. *)
Definition serverClose (code : N) (reason : jsstring) : M unit :=
  fun w =>
    (Ok tt,
     mkWorld (network w) (log w ++ [CallServerClose code reason]) (opened w)
             (listeners w) true (unread w) (client_frames w) (pending w)).

(** [!upgradeHeader || upgradeHeader.toLowerCase() !== 'websocket']. *)
Definition notWebSocketUpgrade (h : option jsstring) : bool :=
  match h with
  | None => true
  | Some [] => true
  | Some v => negb (streq (toLowerCase v) (str "websocket"))
  end.

(** The two other listeners ([close], [error]) only write to the console. *)
Definition handleVless (request : Request) (env : Env) : M Response :=
  if notWebSocketUpgrade (upgradeHeader request) then
    ret (mkResponse 426 (Some (str "Expected a WebSocket Upgrade request")) false)
  else
    addMessageListener OnFirstMessage ;;
    ret (mkResponse 101 None true).

(** ** The message events of a session *)

(** The handler of index.ts:51 is asynchronous.  Called with a frame, it
    runs to the [await] of index.ts:55 and returns; the rest of it runs
    when the connection it waits for has settled, and the calls that follow
    ([writer.write], the registration of the relay listener) are taken to
    complete at that moment.  A rejection that is already there when the
    handler returns (a header that does not parse, a URL that [new Request]
    refuses) reaches the [catch] before the next frame. *)

Definition suspend (c : Pending) (w : World) : World :=
  mkWorld (network w) (log w) (opened w) (listeners w) (closed w)
          (unread w) (client_frames w) (pending w ++ [c]).

Definition unsuspend (i : nat) (w : World) : World :=
  mkWorld (network w) (log w) (opened w) (listeners w) (closed w)
          (unread w) (client_frames w)
          (firstn i (pending w) ++ skipn (S i) (pending w)).

(** index.ts:52-55 and 69-74: the header is parsed and the connection
    asked for; the handler then waits, or a thrown value closes the server
    socket with 1011 and the value's message. *)
Definition handler_begin (env : Env) (data : ArrayBuffer) (w : World) : World :=
  match processVlessHeader_begin data env w with
  | (Ok c, w') => suspend c w'
  | (Throw e, w') => snd (serverClose 1011 (message e) w')
  end.

(** index.ts:55-74 once the connection has settled: on success the first
    write is made and a stream fed by a new message listener is piped to
    the remote socket (the pipe stays pending); a thrown value closes the
    server socket with 1011 and the value's message. *)
Definition handler_resume (c : Pending) (w : World) : World :=
  match processVlessHeader_resume c w with
  | (Ok h, w') => snd (addMessageListener (EnqueueTo (remoteSocket h)) w')
  | (Throw e, w') => snd (serverClose 1011 (message e) w')
  end.

(** A listener called with a frame, as far as it runs before it returns.
    - index.ts:51: the handler, up to its [await].
    - index.ts:60, 67: the frame is enqueued, and the pipe writes it to the
      remote socket. *)
Definition callListener (env : Env) (data : ArrayBuffer) (l : listener)
  : World -> World :=
  fun w =>
    match l with
    | OnFirstMessage => handler_begin env data w
    | EnqueueTo socket => snd (write socket data w)
    end.

(** One listener called with a frame and followed to its end, for a run in
    which nothing else happens while the handler waits: the connection
    settles at once. *)
Definition runListener (env : Env) (data : ArrayBuffer) (l : listener)
  : World -> World :=
  fun w =>
    match l with
    | OnFirstMessage =>
        match processVlessHeader_begin data env w with
        | (Ok c, w') => handler_resume c w'
        | (Throw e, w') => snd (serverClose 1011 (message e) w')
        end
    | EnqueueTo socket => snd (write socket data w)
    end.

(** What reaches a session from outside: a binary frame from the client,
    the settling of the connection that the [i]-th waiting handler run has
    asked for, or a chunk that the remote end of a socket has sent. *)
Inductive event :=
  | Frame (data : ArrayBuffer)
  | Settle (i : nat)
  | RemoteChunk (socket : SocketId) (chunk : list byte).

(** A frame is dispatched to the listeners registered when it arrives, in
    registration order, whether or not [server.close] has been called:
    index.ts removes no listener and tests no state.  When a connection
    settles, the handler run that waits for it goes on; there is nothing to
    do when no run waits at that index.  A remote chunk joins the socket's
    readable side; nothing in index.ts reads it.  Within one frame the log
    has the calls of the handler before the writes of the relay listeners;
    the properties below read the log one kind of call at a time. *)
Definition deliver (env : Env) (ev : event) (w : World) : World :=
  match ev with
  | Frame data =>
      fold_left (fun w l => callListener env data l w) (listeners w) w
  | Settle i =>
      match nth_error (pending w) i with
      | Some c => handler_resume c (unsuspend i w)
      | None => w
      end
  | RemoteChunk socket chunk =>
      mkWorld (network w) (log w) (opened w) (listeners w) (closed w)
              (unread w ++ [(socket, chunk)]) (client_frames w) (pending w)
  end.

Definition session (env : Env) (events : list event) (w : World) : World :=
  fold_left (fun w ev => deliver env ev w) events w.

(** The world of a fresh request. *)
Definition fresh (network : jsstring -> N -> outcome) : World :=
  mkWorld network [] 0 [] false [] [] [].

(** A request followed, when the response hands over a socket, by the
    events of its session. *)
Definition serve (network : jsstring -> N -> outcome) (request : Request)
  (env : Env) (events : list event) : result Response * World :=
  match handleVless request env (fresh network) with
  | (Ok r, w) => (Ok r, if webSocket r then session env events w else w)
  | (Throw e, w) => (Throw e, w)
  end.

(** ** Views of the log *)

(** The chunks written to one remote socket, oldest first. *)
Definition written (socket : SocketId) (l : list call) : list (list byte) :=
  flat_map (fun c =>
    match c with
    | CallWrite s chunk => if Nat.eqb s socket then [chunk] else []
    | _ => []
    end) l.

(** The messages [processVlessHeader] was called with. *)
Definition headerCalls (l : list call) : list ArrayBuffer :=
  flat_map (fun c =>
    match c with CallProcessVlessHeader m => [m] | _ => [] end) l.

Definition connectCalls (l : list call) : list (jsstring * N) :=
  flat_map (fun c =>
    match c with CallConnect h p => [(h, p)] | _ => [] end) l.

Definition compareCalls (l : list call) : list (list byte * list byte) :=
  flat_map (fun c =>
    match c with CallCompareArrays a b => [(a, b)] | _ => [] end) l.

Definition closeCalls (l : list call) : list (N * jsstring) :=
  flat_map (fun c =>
    match c with CallServerClose code r => [(code, r)] | _ => [] end) l.

(** ** Building a header: the wire format read back by the parser *)

Inductive address :=
  | IPv4 (a b c d : byte)
  | Domain (name : list byte)
  | IPv6 (bytes : list byte).

(** The address-kind byte: 1, 2 or 3. *)
Definition address_kind (a : address) : byte :=
  match a with
  | IPv4 _ _ _ _ => x01
  | Domain _ => x02
  | IPv6 _ => x03
  end.

(** The bytes of the address form, after the kind byte. *)
Definition address_body (a : address) : list byte :=
  match a with
  | IPv4 a b c d => [a; b; c; d]
  | Domain name => byte_of_N (N.of_nat (length name)) :: name
  | IPv6 bytes => bytes
  end.

Definition address_wf (a : address) : Prop :=
  match a with
  | IPv4 _ _ _ _ => True
  | Domain name => (length name <= 255)%nat
  | IPv6 bytes => length bytes = 16%nat
  end.

(** The bytes of the address form: 4, 1 + L, or 16. *)
Definition addressLength (a : address) : N :=
  match a with
  | IPv4 _ _ _ _ => 4
  | Domain name => 1 + N.of_nat (length name)
  | IPv6 _ => 16
  end.

(** version 0, secret, add-ons, command 1, port, address. *)
Definition header_bytes (secret addons : list byte) (hi lo : byte) (a : address)
  : list byte :=
  x00 :: secret ++ byte_of_N (N.of_nat (length addons)) :: addons
      ++ x01 :: hi :: lo :: address_kind a :: address_body a.

(** The host [decodeAddress] gives for an address. *)
Definition render (a : address) : jsstring :=
  match a with
  | IPv4 a b c d =>
      join (str ".") (map (fun b => toString10 (Byte.to_N b)) [a; b; c; d])
  | Domain name => Utf8.decode name
  | IPv6 bytes => ipv6_reduce [] 0 bytes
  end.

(** [getUint16] of the two port bytes. *)
Definition port_of (hi lo : byte) : N := 256 * Byte.to_N hi + Byte.to_N lo.

(** ** The calls a computation makes *)

Definition add_logs (cs : list call) (w : World) : World :=
  mkWorld (network w) (log w ++ cs) (opened w) (listeners w) (closed w)
          (unread w) (client_frames w) (pending w).

(** The calls made by [c] when it runs in [w]. *)
Definition calls_during {A} (c : M A) (w : World) : list call :=
  skipn (length (log w)) (log (snd (c w))).

(** The comparison [parseHeader] makes: one call, when the version byte is
    0 and the 16 bytes after it are there. *)
Definition compared (message : ArrayBuffer) (env : Env) : list call :=
  match getUint8 message 0 with
  | Ok version =>
      if negb (version =? 0) then [] else
      match Uint8Array message 1 16 with
      | Ok receivedUuid =>
          [CallCompareArrays receivedUuid (uuidToBytes (UUID env))]
      | Throw _ => []
      end
  | Throw _ => []
  end.

(** The world after [connect] and the first write. *)
Definition established (w : World) (cs : list call) : World :=
  mkWorld (network w) (log w ++ cs) (S (opened w)) (listeners w) (closed w)
          (unread w) (client_frames w) (pending w).

(** The remote chunks among the events, in order. *)
Definition remoteChunks (events : list event) : list (SocketId * list byte) :=
  flat_map (fun ev =>
    match ev with
    | RemoteChunk socket chunk => [(socket, chunk)]
    | _ => []
    end) events.

(** The frames among the events, in order. *)
Definition framesOf (events : list event) : list ArrayBuffer :=
  flat_map (fun ev =>
    match ev with
    | Frame data => [data]
    | _ => []
    end) events.

(** The status of the response a handler returns. *)
Definition status_of (r : result Response * World) : option N :=
  match fst r with
  | Ok resp => Some (status resp)
  | Throw _ => None
  end.

(** The listeners of a session, however far it has gone: the handler of
    [handleVless] first, then one relay listener for each socket opened, in
    order. *)
Definition wired (w : World) : Prop :=
  listeners w = OnFirstMessage :: map EnqueueTo (seq 0 (opened w)).

(** The world in which the session of an accepted request starts. *)
Definition upgraded (network : jsstring -> N -> outcome) : World :=
  snd (addMessageListener OnFirstMessage (fresh network)).

(** ** The specification's text forms of an address *)

(** The text form the specification asks of an IPv4 address. *)
Definition spec_ipv4_text (a b c d : byte) : jsstring :=
  toString10 (Byte.to_N a) ++ str "." ++ toString10 (Byte.to_N b) ++ str "."
    ++ toString10 (Byte.to_N c) ++ str "." ++ toString10 (Byte.to_N d).

(** Two lowercase hexadecimal digits for one byte. *)
Definition hex2 (b : byte) : jsstring :=
  [hexdigit (Byte.to_N b / 16); hexdigit (Byte.to_N b mod 16)].

(** The bytes two by two, each pair as one group of four digits. *)
Fixpoint hex_groups (bytes : list byte) : list jsstring :=
  match bytes with
  | a :: b :: rest => (hex2 a ++ hex2 b) :: hex_groups rest
  | _ => []
  end.

(** The text form the specification asks of an IPv6 address: its groups of
    two bytes in lowercase hexadecimal, separated by colons. *)
Definition spec_ipv6_text (bytes : list byte) : jsstring :=
  join (str ":") (hex_groups bytes).

(** ** Sample values used by the examples *)

Definition sample_uuid : jsstring := str "00112233-4455-6677-8899-aabbccddeeff".

Definition sample_env : Env := mkEnv sample_uuid (str "/tunnel") [] [].

(** The same environment with [PROXY_HOST] set to 10.0.0.1. *)
Definition pinned_env : Env := mkEnv sample_uuid (str "/tunnel") (str "10.0.0.1") [].

(** Every connection is established. *)
Definition open_network : jsstring -> N -> outcome := fun _ _ => Established.

(** No add-ons, port 443, IPv4 1.2.3.4. *)
Definition sample_header : list byte :=
  header_bytes (uuidToBytes sample_uuid) [] x01 xbb (IPv4 x01 x02 x03 x04).

Definition plain_request : Request := mkRequest None.

Definition upgrade_request : Request := mkRequest (Some (str "WebSocket")).

(** ** Spelling bytes in hexadecimal *)

(** [s] spells [bytes]: it starts with two hexadecimal digits, of either
    case, for each byte in turn; what follows them is free. *)
Fixpoint spelled (bytes : list byte) (s : jsstring) : Prop :=
  match bytes, s with
  | [], _ => True
  | b :: bytes', c1 :: c2 :: s' =>
      hexval c1 = Some (Byte.to_N b / 16)
      /\ hexval c2 = Some (Byte.to_N b mod 16)
      /\ spelled bytes' s'
  | _, _ => False
  end.

(** Every connection is refused. *)
Definition refusing_network : jsstring -> N -> outcome :=
  fun _ _ => FetchRejected (str "refused").

(** ** Proof steps *)

Ltac unfold_m :=
  unfold bind, lift, throw, ret, record;
  change (0 + 1) with 1; change (1 + 16) with 17; change (17 + 1) with 18.

Ltac reduce_m := cbv beta iota zeta; cbn [fst snd negb].

(** Case analysis on the next read of the message. *)
Ltac next_read :=
  match goal with
  | |- context [match getUint8 ?m ?o with _ => _ end] =>
      destruct (getUint8 m o) as [?v|?e] eqn:?
  | |- context [match getUint16 ?m ?o with _ => _ end] =>
      destruct (getUint16 m o) as [?v|?e] eqn:?
  | |- context [match Uint8Array ?m ?o ?l with _ => _ end] =>
      destruct (Uint8Array m o l) as [?bytes|?e] eqn:?
  | |- context [match decodeAddress ?m ?o ?t with _ => _ end] =>
      destruct (decodeAddress m o t) as [[?h ?o']|?e] eqn:?
  | |- context [if negb (?a =? ?b) then _ else _] =>
      destruct (a =? b) eqn:?
  | |- context [if negb (compareArrays ?a ?b) then _ else _] =>
      destruct (compareArrays a b) eqn:?
  end; reduce_m.

Ltac list_eq := simpl; repeat (rewrite <- app_assoc; simpl); reflexivity.
Ltac len_eq :=
  unfold byteLength; repeat (rewrite length_app || simpl length); lia.

(** * Properties *)

(** ** Sample runs *)

Example uuidToBytes_sample :
  uuidToBytes (str "00112233-4455-6677-8899-aabbCCDDeeff")
  = [x00; x11; x22; x33; x44; x55; x66; x77; x88; x99; xaa; xbb; xcc; xdd; xee; xff].
Proof. reflexivity. Qed.

Example uuidToBytes_malformed :
  uuidToBytes (str "zz1")
  = [x00; x01; x00; x00; x00; x00; x00; x00; x00; x00; x00; x00; x00; x00; x00; x00].
Proof. reflexivity. Qed.

Example toString10_samples :
  toString10 0 = str "0" /\ toString10 443 = str "443"
  /\ message (UnsupportedCommand 3) = str "Unsupported command: 3"
  /\ message (UpstreamConnectFailed (str "example.com") 80 (str "refused"))
     = str "Failed to connect to example.com:80: refused".
Proof. repeat split; reflexivity. Qed.

Example decode_example_com :
  Utf8.decode [x65; x78; x61; x6d; x70; x6c; x65; x2e; x63; x6f; x6d]
  = str "example.com".
Proof. reflexivity. Qed.

(** "é", "€", U+1F600, then a lone continuation byte. *)
Example decode_multibyte :
  Utf8.decode [xc3; xa9; xe2; x82; xac; xf0; x9f; x98; x80; x80]
  = [0xE9; 0x20AC; 0xD83D; 0xDE00; 0xFFFD].
Proof. reflexivity. Qed.

(** ** Reads at a known position *)

Lemma byteLength_app (a b : ArrayBuffer) :
  byteLength (a ++ b) = byteLength a + byteLength b.
Proof. unfold byteLength. rewrite length_app. lia. Qed.

Lemma getUint8_at (pre : list byte) (b : byte) (post : list byte) (offset : N) :
  offset = byteLength pre ->
  getUint8 (pre ++ b :: post) offset = Ok (Byte.to_N b).
Proof.
  intros ->. unfold getUint8, byteLength. rewrite Nat2N.id.
  rewrite nth_error_app2 by lia. now rewrite Nat.sub_diag.
Qed.

Lemma getUint16_at (pre : list byte) (hi lo : byte) (post : list byte) (offset : N) :
  offset = byteLength pre ->
  getUint16 (pre ++ hi :: lo :: post) offset
  = Ok (256 * Byte.to_N hi + Byte.to_N lo).
Proof.
  intros ->. unfold getUint16, byteLength.
  replace (N.to_nat (N.of_nat (length pre) + 1)) with (S (length pre)) by lia.
  rewrite Nat2N.id.
  rewrite !nth_error_app2 by lia.
  replace (S (length pre) - length pre)%nat with 1%nat by lia.
  now rewrite Nat.sub_diag.
Qed.

Lemma Uint8Array_at (pre mid post : list byte) (offset len : N) :
  offset = byteLength pre ->
  len = byteLength mid ->
  Uint8Array (pre ++ mid ++ post) offset len = Ok mid.
Proof.
  intros -> ->. unfold Uint8Array.
  rewrite !byteLength_app.
  replace (byteLength pre + byteLength mid
           <=? byteLength pre + (byteLength mid + byteLength post)) with true
    by (symmetry; apply N.leb_le; lia).
  unfold byteLength. rewrite !Nat2N.id.
  rewrite skipn_app, Nat.sub_diag, skipn_all. simpl.
  rewrite firstn_app, Nat.sub_diag, firstn_all. simpl.
  now rewrite app_nil_r.
Qed.

Lemma Uint8Array_length (m : ArrayBuffer) (offset len : N) (bytes : list byte) :
  Uint8Array m offset len = Ok bytes -> byteLength bytes = len.
Proof.
  unfold Uint8Array, byteLength.
  destruct (offset + len <=? N.of_nat (length m)) eqn:E; [|discriminate].
  apply N.leb_le in E. intros [= <-].
  rewrite length_firstn, length_skipn. lia.
Qed.

Lemma Uint8Array_in_bounds (m : ArrayBuffer) (offset len : N) (bytes : list byte) :
  Uint8Array m offset len = Ok bytes -> offset + len <= byteLength m.
Proof.
  unfold Uint8Array.
  destruct (offset + len <=? byteLength m) eqn:E; [|discriminate].
  intros _. now apply N.leb_le.
Qed.

Lemma byte_of_N_to_N (n : N) : n <= 255 -> Byte.to_N (byte_of_N n) = n.
Proof.
  intros H. unfold byte_of_N. rewrite N.mod_small by lia.
  destruct (Byte.of_N n) eqn:E.
  - now apply Byte.to_of_N.
  - apply Byte.of_N_None_iff in E. lia.
Qed.

(** ** [uuidToBytes] and [compareArrays] *)

Lemma uuidToBytes_loop_length (hex : jsstring) (from : N) (n : nat) :
  length (uuidToBytes_loop hex from n) = n.
Proof.
  revert from. induction n as [|n IH]; intros from; simpl; [reflexivity|].
  now rewrite IH.
Qed.

Lemma uuidToBytes_length (uuid : jsstring) : length (uuidToBytes uuid) = 16%nat.
Proof. unfold uuidToBytes. apply uuidToBytes_loop_length. Qed.

Lemma uuidToBytes_loop_nth (hex : jsstring) (from : N) (n i : nat) :
  (i < n)%nat ->
  nth_error (uuidToBytes_loop hex from n) i
  = Some (ToUint8 (parseInt16
       (substring hex ((from + N.of_nat i) * 2) ((from + N.of_nat i) * 2 + 2)))).
Proof.
  revert from i. induction n as [|n IH]; intros from i Hi; [lia|].
  destruct i as [|i]; simpl nth_error.
  - now rewrite N.add_0_r.
  - rewrite IH by lia. do 4 f_equal; lia.
Qed.

Lemma compareArrays_loop_eq (a b : list byte) :
  length a = length b -> (compareArrays_loop a b = true <-> a = b).
Proof.
  revert b. induction a as [|x a IH]; intros [|y b] H; simpl in *;
    try discriminate; try (split; auto; fail).
  destruct (Byte.eqb x y) eqn:E.
  - apply Byte.byte_dec_bl in E. subst y. rewrite IH by lia.
    split; [now intros -> | now intros [= ->]].
  - apply Byte.eqb_false in E. split; [discriminate | intros [= ? ?]; contradiction].
Qed.

(** [compareArrays] is byte-for-byte equality: equal length and equal
    content. *)
Lemma compareArrays_true_iff (a b : list byte) :
  compareArrays a b = true <-> a = b.
Proof.
  unfold compareArrays.
  destruct (N.of_nat (length a) =? N.of_nat (length b)) eqn:E; simpl.
  - apply N.eqb_eq in E. apply compareArrays_loop_eq. lia.
  - apply N.eqb_neq in E. split; [discriminate|]. intros ->. contradiction.
Qed.

(** ** The calls a computation makes *)

Lemma add_logs_nil (w : World) : add_logs [] w = w.
Proof. destruct w; unfold add_logs; simpl. now rewrite app_nil_r. Qed.

Lemma add_logs_add_logs (a b : list call) (w : World) :
  add_logs b (add_logs a w) = add_logs (a ++ b) w.
Proof. unfold add_logs; simpl. now rewrite app_assoc. Qed.

Lemma add_log_add_logs (c : call) (w : World) : add_log c w = add_logs [c] w.
Proof. reflexivity. Qed.

Lemma calls_during_logs {A} (c : M A) (w : World) (cs : list call) :
  log (snd (c w)) = log w ++ cs -> calls_during c w = cs.
Proof.
  intros H. unfold calls_during. rewrite H.
  now rewrite skipn_app, Nat.sub_diag, skipn_all.
Qed.

(** [parseHeader] only appends to the log, and what it appends is the
    comparison. *)
Lemma parseHeader_world (message : ArrayBuffer) (env : Env) (w : World) :
  snd (parseHeader message env w) = add_logs (compared message env) w.
Proof.
  unfold parseHeader, compared. unfold_m. reduce_m.
  repeat next_read;
    rewrite ?add_log_add_logs, ?add_logs_nil; reflexivity.
Qed.

(** Its result does not depend on the world. *)
Lemma parseHeader_result (message : ArrayBuffer) (env : Env) (w w' : World) :
  fst (parseHeader message env w) = fst (parseHeader message env w').
Proof.
  unfold parseHeader. unfold_m. reduce_m.
  repeat next_read; reflexivity.
Qed.

Lemma decodeAddress_in_bounds (m : ArrayBuffer) (offset t : N) (h : jsstring)
  (offset' : N) :
  decodeAddress m offset t = Ok (h, offset') -> offset' <= byteLength m.
Proof.
  unfold decodeAddress.
  destruct t as [|[[| |]|[| |]|]]; try discriminate;
    repeat next_read; try discriminate; intros [= <- <-];
    match goal with
    | H : Uint8Array _ _ _ = Ok _ |- _ => apply Uint8Array_in_bounds in H; lia
    end.
Qed.

Lemma parseHeader_in_bounds (m : ArrayBuffer) (env : Env) (w : World) (p : Parsed) :
  fst (parseHeader m env w) = Ok p -> parsed_offset p <= byteLength m.
Proof.
  unfold parseHeader. unfold_m. reduce_m.
  repeat next_read; try discriminate.
  intros [= <-]. simpl. eapply decodeAddress_in_bounds; eassumption.
Qed.

(** [processVlessHeader] when the header does not parse. *)
Lemma processVlessHeader_throw (m : ArrayBuffer) (env : Env) (w : World) (e : exn) :
  fst (parseHeader m env w) = Throw e ->
  processVlessHeader m env w
  = (Throw e, add_logs (CallProcessVlessHeader m :: compared m env) w).
Proof.
  intros H. unfold processVlessHeader.
  unfold bind at 1. unfold record at 1. unfold bind at 1.
  pose proof (parseHeader_world m env (add_log (CallProcessVlessHeader m) w)) as Hw.
  rewrite (parseHeader_result m env w (add_log (CallProcessVlessHeader m) w)) in H.
  destruct (parseHeader m env (add_log (CallProcessVlessHeader m) w)) as [r w'].
  simpl in H, Hw. subst r w'.
  now rewrite add_log_add_logs, add_logs_add_logs.
Qed.

(** [processVlessHeader] when the header parses: the host is resolved,
    [connect] is called, and on success the rest of the message is written
    to the new socket. *)
Lemma processVlessHeader_parsed (m : ArrayBuffer) (env : Env) (w : World) (p : Parsed) :
  fst (parseHeader m env w) = Ok p ->
  let host := resolveHost env (parsed_host p) in
  let port := parsed_port p in
  let cs := CallProcessVlessHeader m :: compared m env ++ [CallConnect host port] in
  processVlessHeader m env w
  = match network w host port with
    | Established =>
        (Ok (mkVlessHeader (opened w) host port
               (firstn (N.to_nat (parsed_offset p)) m)),
         established w
           (cs ++ [CallWrite (opened w) (skipn (N.to_nat (parsed_offset p)) m)]))
    | FetchRejected cause =>
        (Throw (UpstreamConnectFailed host port cause), add_logs cs w)
    | RequestInvalid text => (Throw (TypeError text), add_logs cs w)
    end.
Proof.
  intros H host port cs.
  pose proof (parseHeader_in_bounds _ _ _ _ H) as Hb.
  unfold processVlessHeader.
  unfold bind at 1. unfold record at 1. unfold bind at 1.
  pose proof (parseHeader_world m env (add_log (CallProcessVlessHeader m) w)) as Hw.
  rewrite (parseHeader_result m env w (add_log (CallProcessVlessHeader m) w)) in H.
  destruct (parseHeader m env (add_log (CallProcessVlessHeader m) w)) as [r w'].
  simpl in H, Hw. subst r w'.
  fold host. fold port.
  unfold bind, lift, Uint8Array, Uint8Array_from.
  replace (0 + parsed_offset p <=? byteLength m) with true
    by (symmetry; apply N.leb_le; lia).
  replace (parsed_offset p <=? byteLength m) with true
    by (symmetry; apply N.leb_le; lia).
  unfold connect, write, record, ret, add_log, add_logs, established. simpl.
  destruct (network w host port); subst cs; simpl;
    repeat rewrite <- app_assoc; reflexivity.
Qed.

(** ** The calls of [processVlessHeader] *)

Lemma connectCalls_app (a b : list call) :
  connectCalls (a ++ b) = connectCalls a ++ connectCalls b.
Proof. apply flat_map_app. Qed.

Lemma compareCalls_app (a b : list call) :
  compareCalls (a ++ b) = compareCalls a ++ compareCalls b.
Proof. apply flat_map_app. Qed.

Lemma connectCalls_compared (m : ArrayBuffer) (env : Env) :
  connectCalls (compared m env) = [].
Proof.
  unfold compared. repeat next_read; reflexivity.
Qed.

Lemma calls_during_throw (m : ArrayBuffer) (env : Env) (w : World) (e : exn) :
  fst (parseHeader m env w) = Throw e ->
  calls_during (processVlessHeader m env) w
  = CallProcessVlessHeader m :: compared m env.
Proof.
  intros H. apply calls_during_logs.
  now rewrite (processVlessHeader_throw _ _ _ _ H).
Qed.

Lemma calls_during_parsed (m : ArrayBuffer) (env : Env) (w : World) (p : Parsed) :
  fst (parseHeader m env w) = Ok p ->
  exists writes,
    calls_during (processVlessHeader m env) w
    = [CallProcessVlessHeader m] ++ compared m env
        ++ [CallConnect (resolveHost env (parsed_host p)) (parsed_port p)]
        ++ writes
    /\ connectCalls writes = [] /\ compareCalls writes = [].
Proof.
  intros H. pose proof (processVlessHeader_parsed _ _ _ _ H) as E.
  cbv zeta in E.
  destruct (network w (resolveHost env (parsed_host p)) (parsed_port p)).
  - eexists [CallWrite _ _]. split; [|split; reflexivity].
    apply calls_during_logs. rewrite E. simpl.
    now rewrite <- app_assoc.
  - exists []. split; [|split; reflexivity].
    apply calls_during_logs. rewrite E. reflexivity.
  - exists []. split; [|split; reflexivity].
    apply calls_during_logs. rewrite E. reflexivity.
Qed.

(** A header that does not parse makes no connection attempt. *)
Lemma no_connect_on_throw (m : ArrayBuffer) (env : Env) (w : World) (e : exn) :
  fst (parseHeader m env w) = Throw e ->
  fst (processVlessHeader m env w) = Throw e
  /\ connectCalls (calls_during (processVlessHeader m env) w) = [].
Proof.
  intros H. split.
  - now rewrite (processVlessHeader_throw _ _ _ _ H).
  - rewrite (calls_during_throw _ _ _ _ H).
    change (connectCalls (compared m env) = []). apply connectCalls_compared.
Qed.

Lemma to_N_nonzero (b : byte) : b <> x00 -> Byte.to_N b <> 0.
Proof.
  intros H E. apply H.
  pose proof (Byte.of_to_N b) as R. rewrite E in R.
  simpl in R. now injection R.
Qed.

(** ** C8: the version is checked before the secret *)

(** C8. For every first frame whose version byte is not 0, header
    processing fails with UnsupportedVersion, and [compareArrays] is not
    called for that frame. *)
Theorem unsupported_version_before_secret
  (version : byte) (rest : list byte) (env : Env) (w : World) :
  version <> x00 ->
  fst (processVlessHeader (version :: rest) env w)
  = Throw (UnsupportedVersion (Byte.to_N version))
  /\ compareCalls (calls_during (processVlessHeader (version :: rest) env) w) = [].
Proof.
  intros Hv. apply to_N_nonzero in Hv.
  assert (H : fst (parseHeader (version :: rest) env w)
              = Throw (UnsupportedVersion (Byte.to_N version))).
  { unfold parseHeader. unfold_m. reduce_m.
    change (getUint8 (version :: rest) 0) with (@Ok N (Byte.to_N version)).
    reduce_m. apply N.eqb_neq in Hv. now rewrite Hv. }
  split.
  - now rewrite (processVlessHeader_throw _ _ _ _ H).
  - rewrite (calls_during_throw _ _ _ _ H).
    unfold compared.
    change (getUint8 (version :: rest) 0) with (@Ok N (Byte.to_N version)).
    reduce_m. apply N.eqb_neq in Hv. now rewrite Hv.
Qed.

(** A frame with version 1 and the configured secret in place. *)
Lemma unsupported_version_witness :
  x01 <> x00
  /\ fst (processVlessHeader
            (x01 :: uuidToBytes (str "00112233-4455-6677-8899-aabbccddeeff"))
            (mkEnv (str "00112233-4455-6677-8899-aabbccddeeff") (str "/t") [] [])
            (fresh (fun _ _ => Established)))
     = Throw (UnsupportedVersion 1).
Proof.
  split; [discriminate|].
  apply (unsupported_version_before_secret x01); discriminate.
Defined.

(** ** A wrong secret *)

Lemma parseHeader_invalid_secret (received rest : list byte) (env : Env) (w : World) :
  length received = 16%nat ->
  received <> uuidToBytes (UUID env) ->
  fst (parseHeader (x00 :: received ++ rest) env w) = Throw InvalidSecret.
Proof.
  intros Hl Hne.
  unfold parseHeader. unfold_m. reduce_m.
  change (getUint8 (x00 :: received ++ rest) 0) with (@Ok N 0). reduce_m.
  change (0 =? 0) with true. reduce_m.
  rewrite (Uint8Array_at [x00] received rest)
    by (unfold byteLength; simpl; lia).
  reduce_m.
  destruct (compareArrays received (uuidToBytes (UUID env))) eqn:E; [|reflexivity].
  apply compareArrays_true_iff in E. contradiction.
Qed.

(** ** C10: the configured secret always has 16 bytes *)

Lemma compareCalls_processVlessHeader (m : ArrayBuffer) (env : Env) (w : World) :
  compareCalls (calls_during (processVlessHeader m env) w)
  = compareCalls (compared m env).
Proof.
  destruct (fst (parseHeader m env w)) as [p|e] eqn:H.
  - destruct (calls_during_parsed _ _ _ _ H) as (writes & -> & _ & Hc).
    rewrite !compareCalls_app, Hc. simpl. now rewrite app_nil_r.
  - now rewrite (calls_during_throw _ _ _ _ H).
Qed.

(** The arguments of the one comparison a frame can cause. *)
Lemma compared_lengths (m : ArrayBuffer) (env : Env) :
  Forall (fun ab => length (fst ab) = 16%nat /\ length (snd ab) = 16%nat)
         (compareCalls (compared m env)).
Proof.
  unfold compared. repeat next_read; simpl; constructor; try constructor.
  - match goal with
    | H : Uint8Array _ _ _ = Ok _ |- _ => apply Uint8Array_length in H
    end.
    unfold byteLength in *. simpl. lia.
  - apply uuidToBytes_length.
Qed.

(** C10. For every input string [uuidToBytes] returns exactly 16 bytes, a
    pair that [parseInt] cannot read giving the byte 0; so every call of
    [compareArrays] made by [processVlessHeader] has two arguments of 16
    bytes, and the result of that call is the result of its loop: the
    length test never decides. *)
Theorem uuidToBytes_sixteen_bytes
  (uuid : jsstring) (m : ArrayBuffer) (env : Env) (w : World) :
  length (uuidToBytes uuid) = 16%nat
  /\ (forall i : nat, (i < 16)%nat ->
        parseInt16 (substring (remove_hyphens uuid)
                      (N.of_nat i * 2) (N.of_nat i * 2 + 2)) = None ->
        nth_error (uuidToBytes uuid) i = Some x00)
  /\ Forall (fun ab =>
        length (fst ab) = 16%nat /\ length (snd ab) = 16%nat
        /\ compareArrays (fst ab) (snd ab) = compareArrays_loop (fst ab) (snd ab))
       (compareCalls (calls_during (processVlessHeader m env) w)).
Proof.
  split; [apply uuidToBytes_length|]. split.
  - intros i Hi Hnan. unfold uuidToBytes.
    rewrite uuidToBytes_loop_nth by assumption.
    rewrite N.add_0_l, Hnan. reflexivity.
  - rewrite compareCalls_processVlessHeader.
    eapply Forall_impl; [|apply compared_lengths].
    intros [a b] [Ha Hb]. simpl in *. repeat split; try assumption.
    unfold compareArrays. now rewrite Ha, Hb.
Qed.

(** The string "zz1": the first pair is not hexadecimal, so byte 0 is 0. *)
Lemma uuidToBytes_sixteen_bytes_witness :
  length (uuidToBytes (str "zz1")) = 16%nat
  /\ nth_error (uuidToBytes (str "zz1")) 0 = Some x00.
Proof.
  destruct (uuidToBytes_sixteen_bytes (str "zz1") []
              (mkEnv (str "zz1") [] [] []) (fresh (fun _ _ => Established)))
    as (Hlen & Hnan & _).
  split; [exact Hlen|].
  apply Hnan; [lia | reflexivity].
Defined.

(** ** C5: the override host *)

Lemma resolveHost_override (env : Env) (h : jsstring) :
  PROXY_HOST env <> [] -> h <> PROXY_HOST env -> resolveHost env h = PROXY_HOST env.
Proof.
  intros H1 H2. unfold resolveHost, streq.
  destruct (jsstring_eq_dec (PROXY_HOST env) []); [contradiction|].
  destruct (jsstring_eq_dec h (PROXY_HOST env)); [contradiction|]. reflexivity.
Qed.

Lemma resolveHost_unset (env : Env) (h : jsstring) :
  PROXY_HOST env = [] -> resolveHost env h = h.
Proof.
  intros H. unfold resolveHost, streq. rewrite H.
  destruct (jsstring_eq_dec [] []); [reflexivity|contradiction].
Qed.

Lemma connectCalls_parsed (m : ArrayBuffer) (env : Env) (w : World) (p : Parsed) :
  fst (parseHeader m env w) = Ok p ->
  connectCalls (calls_during (processVlessHeader m env) w)
  = [(resolveHost env (parsed_host p), parsed_port p)].
Proof.
  intros H. destruct (calls_during_parsed _ _ _ _ H) as (writes & -> & Hc & _).
  rewrite !connectCalls_app, Hc, connectCalls_compared. reflexivity.
Qed.

(** C5. For every header that parses to a host and a port: when
    [PROXY_HOST] is not empty and differs from the decoded host, the one
    call of [connect] has [PROXY_HOST] and the parsed port; when
    [PROXY_HOST] is empty, it has the decoded host and the parsed port. *)
Theorem override_host_used
  (m : ArrayBuffer) (env : Env) (w : World) (p : Parsed) :
  fst (parseHeader m env w) = Ok p ->
  (PROXY_HOST env <> [] -> parsed_host p <> PROXY_HOST env ->
     connectCalls (calls_during (processVlessHeader m env) w)
     = [(PROXY_HOST env, parsed_port p)])
  /\ (PROXY_HOST env = [] ->
     connectCalls (calls_during (processVlessHeader m env) w)
     = [(parsed_host p, parsed_port p)]).
Proof.
  intros H. rewrite (connectCalls_parsed _ _ _ _ H). split.
  - intros H1 H2. now rewrite resolveHost_override.
  - intros H1. now rewrite resolveHost_unset.
Qed.

(** ** Reading back a well-formed header *)

Lemma getUint8_split (m pre : list byte) (b : byte) (post : list byte) (offset : N) :
  m = pre ++ b :: post -> offset = byteLength pre ->
  getUint8 m offset = Ok (Byte.to_N b).
Proof. intros ->. apply getUint8_at. Qed.

Lemma getUint16_split (m pre : list byte) (hi lo : byte) (post : list byte)
  (offset : N) :
  m = pre ++ hi :: lo :: post -> offset = byteLength pre ->
  getUint16 m offset = Ok (port_of hi lo).
Proof. intros ->. apply getUint16_at. Qed.

Lemma Uint8Array_split (m pre mid post : list byte) (offset len : N) :
  m = pre ++ mid ++ post -> offset = byteLength pre -> len = byteLength mid ->
  Uint8Array m offset len = Ok mid.
Proof. intros ->. apply Uint8Array_at. Qed.

Lemma decodeAddress_split (m pre : list byte) (a : address) (post : list byte)
  (offset : N) :
  address_wf a ->
  m = pre ++ address_body a ++ post -> offset = byteLength pre ->
  decodeAddress m offset (Byte.to_N (address_kind a))
  = Ok (render a, offset + addressLength a).
Proof.
  intros Hwf -> ->. destruct a as [a b c d|name|bytes]; simpl in Hwf.
  - change (Byte.to_N (address_kind (IPv4 a b c d))) with 1.
    unfold decodeAddress.
    now rewrite (Uint8Array_at pre [a; b; c; d] post) by reflexivity.
  - change (Byte.to_N (address_kind (Domain name))) with 2.
    unfold decodeAddress, address_body.
    rewrite (getUint8_split _ pre (byte_of_N (N.of_nat (length name)))
               (name ++ post)) by (reflexivity || list_eq).
    rewrite byte_of_N_to_N by lia.
    rewrite (Uint8Array_split _ (pre ++ [byte_of_N (N.of_nat (length name))])
               name post) by (list_eq || len_eq).
    cbv beta iota zeta. unfold render, addressLength. do 2 f_equal. lia.
  - change (Byte.to_N (address_kind (IPv6 bytes))) with 3.
    unfold decodeAddress, address_body.
    rewrite (Uint8Array_at pre bytes post)
      by (reflexivity || (unfold byteLength; lia)).
    reflexivity.
Qed.

Lemma address_body_length (a : address) :
  address_wf a -> byteLength (address_body a) = addressLength a.
Proof.
  unfold byteLength. destruct a as [? ? ? ?|name|bytes]; simpl address_wf;
    unfold address_body, addressLength; simpl length; intros H;
    [reflexivity | lia | now rewrite H].
Qed.

Section WellFormedHeader.

Variables (env : Env) (secret addons : list byte) (hi lo : byte) (a : address).
Variable payload : list byte.
Hypothesis Hsecret : length secret = 16%nat.
Hypothesis Haddons : (length addons <= 255)%nat.
Hypothesis Haddress : address_wf a.

Let M := header_bytes secret addons hi lo a ++ payload.
Let nA := N.of_nat (length addons).

Lemma read_version : getUint8 M 0 = Ok 0.
Proof. reflexivity. Qed.

Lemma read_secret : Uint8Array M 1 16 = Ok secret.
Proof.
  apply (Uint8Array_split _ [x00] secret
           (byte_of_N nA :: addons ++ x01 :: hi :: lo :: address_kind a
              :: address_body a ++ payload)).
  - subst M nA. unfold header_bytes. list_eq.
  - reflexivity.
  - len_eq.
Qed.

Lemma read_addons_length : getUint8 M 17 = Ok nA.
Proof.
  rewrite (getUint8_split _ (x00 :: secret) (byte_of_N nA)
             (addons ++ x01 :: hi :: lo :: address_kind a
                :: address_body a ++ payload)).
  - rewrite byte_of_N_to_N; [reflexivity | subst nA; lia].
  - subst M nA. unfold header_bytes. list_eq.
  - len_eq.
Qed.

Lemma read_command : getUint8 M (18 + nA) = Ok 1.
Proof.
  apply (getUint8_split _ (x00 :: secret ++ byte_of_N nA :: addons) x01
           (hi :: lo :: address_kind a :: address_body a ++ payload)).
  - subst M nA. unfold header_bytes. list_eq.
  - subst nA. len_eq.
Qed.

Lemma read_port : getUint16 M (18 + nA + 1) = Ok (port_of hi lo).
Proof.
  apply (getUint16_split _ (x00 :: secret ++ byte_of_N nA :: addons ++ [x01])
           hi lo (address_kind a :: address_body a ++ payload)).
  - subst M nA. unfold header_bytes. list_eq.
  - subst nA. len_eq.
Qed.

Lemma read_address_kind :
  getUint8 M (18 + nA + 1 + 2) = Ok (Byte.to_N (address_kind a)).
Proof.
  apply (getUint8_split _
           (x00 :: secret ++ byte_of_N nA :: addons ++ [x01; hi; lo])
           (address_kind a) (address_body a ++ payload)).
  - subst M nA. unfold header_bytes. list_eq.
  - subst nA. len_eq.
Qed.

Lemma read_address :
  decodeAddress M (18 + nA + 1 + 2 + 1) (Byte.to_N (address_kind a))
  = Ok (render a, 18 + nA + 1 + 2 + 1 + addressLength a).
Proof.
  apply (decodeAddress_split _
           (x00 :: secret ++ byte_of_N nA :: addons
              ++ [x01; hi; lo; address_kind a]) a payload _ Haddress).
  - subst M nA. unfold header_bytes. list_eq.
  - subst nA. len_eq.
Qed.

Lemma header_bytes_length :
  byteLength (header_bytes secret addons hi lo a)
  = 1 + 16 + 1 + nA + 1 + 2 + 1 + addressLength a.
Proof.
  rewrite <- (address_body_length a Haddress).
  subst nA. unfold header_bytes. len_eq.
Qed.

(** A well-formed header parses, whatever follows it. *)
Lemma parseHeader_header_bytes (w : World) :
  secret = uuidToBytes (UUID env) ->
  parseHeader M env w
  = (Ok (mkParsed (port_of hi lo) (render a)
           (byteLength (header_bytes secret addons hi lo a))),
     add_log (CallCompareArrays secret secret) w).
Proof.
  intros Hs. unfold parseHeader. unfold_m.
  rewrite read_version. reduce_m. change (0 =? 0) with true. reduce_m.
  rewrite read_secret. reduce_m. rewrite <- Hs.
  replace (compareArrays secret secret) with true
    by (symmetry; now apply compareArrays_true_iff).
  reduce_m. rewrite read_addons_length. reduce_m.
  rewrite read_command. reduce_m. change (1 =? 1) with true. reduce_m.
  rewrite read_port. reduce_m.
  rewrite read_address_kind. reduce_m.
  rewrite read_address. reduce_m.
  rewrite header_bytes_length. reflexivity.
Qed.

End WellFormedHeader.

(** ** C4: the header-end offset *)

Lemma written_app (s : SocketId) (a b : list call) :
  written s (a ++ b) = written s a ++ written s b.
Proof. apply flat_map_app. Qed.

Lemma written_cons (s : SocketId) (c : call) (l : list call) :
  written s (c :: l) = written s [c] ++ written s l.
Proof. unfold written. simpl. now rewrite app_nil_r. Qed.

Lemma written_compared (s : SocketId) (m : ArrayBuffer) (env : Env) :
  written s (compared m env) = [].
Proof. unfold compared. repeat next_read; reflexivity. Qed.

(** C4. For every first frame made of version 0, the configured secret,
    [N] add-on bytes, command 1, a port, an address of one of the three
    kinds and any payload, the header parses and the offset it records is
    1 + 16 + 1 + N + 1 + 2 + 1 + addressLength; when the connection is
    established, [rawVlessHeader] is the header and what is written to the
    socket is the payload. *)
Theorem header_end_offset
  (env : Env) (addons : list byte) (hi lo : byte) (a : address)
  (payload : list byte) (w : World) :
  (length addons <= 255)%nat ->
  address_wf a ->
  let header := header_bytes (uuidToBytes (UUID env)) addons hi lo a in
  let offset := 1 + 16 + 1 + N.of_nat (length addons) + 1 + 2 + 1 + addressLength a in
  fst (parseHeader (header ++ payload) env w)
  = Ok (mkParsed (port_of hi lo) (render a) offset)
  /\ byteLength header = offset
  /\ (network w (resolveHost env (render a)) (port_of hi lo) = Established ->
      exists h,
        fst (processVlessHeader (header ++ payload) env w) = Ok h
        /\ rawVlessHeader h = header
        /\ written (remoteSocket h)
             (calls_during (processVlessHeader (header ++ payload) env) w)
           = [payload]).
Proof.
  intros Haddons Ha header offset.
  pose proof (uuidToBytes_length (UUID env)) as Hlen.
  pose proof (header_bytes_length _ addons hi lo a Hlen Haddons Ha) as Hoff.
  fold header offset in Hoff.
  assert (Hp : fst (parseHeader (header ++ payload) env w)
               = Ok (mkParsed (port_of hi lo) (render a) offset)).
  { subst header. rewrite parseHeader_header_bytes by auto.
    simpl fst. now rewrite Hoff. }
  split; [exact Hp|]. split; [exact Hoff|].
  intros Hnet.
  pose proof (processVlessHeader_parsed _ _ _ _ Hp) as E.
  cbv zeta in E. simpl parsed_host in E. simpl parsed_port in E.
  simpl parsed_offset in E. rewrite Hnet in E.
  assert (Hn : N.to_nat offset = length header)
    by (rewrite <- Hoff; unfold byteLength; lia).
  rewrite Hn in E.
  rewrite firstn_app, Nat.sub_diag, firstn_all in E.
  change (firstn 0 payload) with (@nil byte) in E.
  rewrite app_nil_r in E.
  rewrite skipn_app, Nat.sub_diag, skipn_all in E.
  change ([] ++ skipn 0 payload) with payload in E.
  eexists. split; [rewrite E; reflexivity|]. split; [reflexivity|].
  simpl remoteSocket.
  erewrite calls_during_logs by (rewrite E; reflexivity).
  rewrite written_app, written_cons, written_app, written_compared.
  unfold written. cbn [flat_map app]. now rewrite Nat.eqb_refl.
Qed.

(** A header with two add-on bytes for example.com:443 and the payload
    "GET": the offset is 1 + 16 + 1 + 2 + 1 + 2 + 1 + 12 = 36. *)
Lemma header_end_offset_witness :
  let env := mkEnv (str "00112233-4455-6677-8899-aabbccddeeff") (str "/t") [] [] in
  let a := Domain [x65; x78; x61; x6d; x70; x6c; x65; x2e; x63; x6f; x6d] in
  fst (parseHeader
         (header_bytes (uuidToBytes (UUID env)) [xaa; xbb] x01 xbb a
            ++ [x47; x45; x54])
         env (fresh (fun _ _ => Established)))
  = Ok (mkParsed 443 (str "example.com") 36).
Proof.
  intros env a.
  apply (header_end_offset env [xaa; xbb] x01 xbb a [x47; x45; x54]
           (fresh (fun _ _ => Established))).
  - simpl. lia.
  - simpl. lia.
Defined.

(** With [PROXY_HOST] 10.0.0.1 the connection goes to 10.0.0.1:443; with
    no [PROXY_HOST] it goes to 1.2.3.4:443. *)
Lemma override_host_used_witness :
  connectCalls (calls_during (processVlessHeader sample_header pinned_env)
                  (fresh open_network))
  = [(str "10.0.0.1", 443)]
  /\ connectCalls (calls_during (processVlessHeader sample_header sample_env)
                     (fresh open_network))
     = [(str "1.2.3.4", 443)].
Proof.
  split.
  - apply (override_host_used sample_header pinned_env (fresh open_network)
             (mkParsed 443 (str "1.2.3.4") 26)).
    + reflexivity.
    + discriminate.
    + discriminate.
  - apply (override_host_used sample_header sample_env (fresh open_network)
             (mkParsed 443 (str "1.2.3.4") 26)).
    + reflexivity.
    + reflexivity.
Defined.

(** ** C7: the three address forms *)

Lemma padStart2_toString16 (b : byte) :
  padStart2 (toString16 (Byte.to_N b)) = hex2 b.
Proof.
  unfold toString16, hex2.
  destruct (Byte.to_N b <? 16) eqn:E; [|reflexivity].
  apply N.ltb_lt in E. unfold padStart2.
  rewrite N.div_small, N.mod_small by assumption. reflexivity.
Qed.

Lemma join_cons (sep x : jsstring) (l : list jsstring) :
  join sep (x :: l) = x ++ flat_map (fun g => sep ++ g) l.
Proof.
  revert x. induction l as [|y l IH]; intros x.
  - simpl. now rewrite app_nil_r.
  - change (join sep (x :: y :: l)) with (x ++ sep ++ join sep (y :: l)).
    rewrite IH. simpl. now rewrite <- app_assoc.
Qed.

Lemma ipv6_reduce_pair (acc : jsstring) (i : N) (a b : byte) (rest : list byte) :
  i mod 2 = 0 ->
  ipv6_reduce acc i (a :: b :: rest)
  = ipv6_reduce (acc ++ (if i =? 0 then [] else str ":") ++ hex2 a ++ hex2 b)
      (i + 1 + 1) rest.
Proof.
  intros Hi.
  assert (Hi' : (i + 1) mod 2 = 1).
  { rewrite N.Div0.add_mod, Hi by lia. reflexivity. }
  cbn [ipv6_reduce]. rewrite Hi, Hi'.
  change (0 =? 0) with true. change (1 =? 0) with false. cbv iota.
  rewrite !padStart2_toString16. now rewrite <- !app_assoc.
Qed.

Lemma ipv6_reduce_groups (n : nat) :
  forall (bytes : list byte) (acc : jsstring) (i : N),
    length bytes = (2 * n)%nat -> i mod 2 = 0 -> i <> 0 ->
    ipv6_reduce acc i bytes
    = acc ++ flat_map (fun g => str ":" ++ g) (hex_groups bytes).
Proof.
  induction n as [|n IH]; intros bytes acc i Hlen Hi Hnz.
  - destruct bytes; [|discriminate]. simpl. now rewrite app_nil_r.
  - destruct bytes as [|a [|b rest]]; try (simpl in Hlen; lia).
    rewrite ipv6_reduce_pair by assumption.
    apply N.eqb_neq in Hnz. rewrite Hnz.
    rewrite IH.
    + cbn [hex_groups flat_map]. now rewrite <- !app_assoc.
    + simpl in Hlen. lia.
    + replace (i + 1 + 1) with (i + 1 * 2) by lia.
      now rewrite N.Div0.mod_add.
    + lia.
Qed.

(** The [reduce] of the IPv6 case gives the specification's text form. *)
Lemma ipv6_reduce_spec (bytes : list byte) :
  length bytes = 16%nat -> ipv6_reduce [] 0 bytes = spec_ipv6_text bytes.
Proof.
  intros Hlen. destruct bytes as [|a [|b rest]]; try discriminate.
  rewrite ipv6_reduce_pair by reflexivity.
  change (0 =? 0) with true. cbv iota.
  rewrite (ipv6_reduce_groups 7) by (simpl in Hlen; try reflexivity; lia).
  unfold spec_ipv6_text. cbn [hex_groups]. now rewrite join_cons.
Qed.

Lemma hex_groups_length (n : nat) :
  forall bytes : list byte, length bytes = (2 * n)%nat -> length (hex_groups bytes) = n.
Proof.
  induction n as [|n IH]; intros bytes Hlen.
  - now destruct bytes.
  - destruct bytes as [|a [|b rest]]; try (simpl in Hlen; lia).
    cbn [hex_groups length]. f_equal. apply IH. simpl in Hlen. lia.
Qed.

(** ASCII bytes decode to themselves. *)
Lemma utf8_run_ascii (bytes : list byte) :
  Forall (fun b => Byte.to_N b <= 127) bytes ->
  Utf8.run Utf8.init bytes = map Byte.to_N bytes.
Proof.
  induction 1 as [|b bytes Hb _ IH]; [reflexivity|].
  cbn [Utf8.run map]. unfold Utf8.step, Utf8.lead.
  change (Utf8.bytes_needed Utf8.init =? 0) with true. cbv iota.
  apply N.leb_le in Hb. rewrite Hb. cbn [app]. now rewrite IH.
Qed.

Lemma utf8_decode_ascii (bytes : list byte) :
  Forall (fun b => Byte.to_N b <= 127) bytes ->
  Utf8.decode bytes = map Byte.to_N bytes.
Proof.
  intros H. unfold Utf8.decode.
  assert (Hs : Utf8.strip_bom bytes = bytes).
  { destruct H as [|b bytes Hb H]; [reflexivity|].
    destruct b; try reflexivity. vm_compute in Hb. now contradiction Hb. }
  rewrite Hs, utf8_run_ascii by assumption.
  clear Hs. induction H as [|b bytes Hb _ IH]; [reflexivity|].
  cbn [map flat_map]. rewrite IH. unfold Utf8.units_of_code_point.
  replace (Byte.to_N b <? 65536) with true by (symmetry; apply N.ltb_lt; lia).
  reflexivity.
Qed.

(** C7. At any position of a frame: four bytes of kind 1 decode to their
    dot-decimal join ({1,2,3,4} gives "1.2.3.4"); a length byte L (0 to
    255) and L bytes of kind 2 decode to the UTF-8 text of those L bytes
    (ASCII bytes to the same characters); sixteen bytes of kind 3 decode to
    eight colon-separated groups of four lowercase hexadecimal digits
    (fifteen zero bytes and a 1 give
    "0000:0000:0000:0000:0000:0000:0000:0001"). *)
Theorem address_decoding (pre post : list byte) :
  (forall a b c d : byte,
      decodeAddress (pre ++ [a; b; c; d] ++ post) (byteLength pre) 1
      = Ok (spec_ipv4_text a b c d, byteLength pre + 4))
  /\ decodeAddress [x01; x02; x03; x04] 0 1 = Ok (str "1.2.3.4", 4)
  /\ (forall name : list byte,
         (length name <= 255)%nat ->
         decodeAddress
           (pre ++ byte_of_N (N.of_nat (length name)) :: name ++ post)
           (byteLength pre) 2
         = Ok (Utf8.decode name, byteLength pre + 1 + N.of_nat (length name)))
  /\ (forall name : list byte,
         Forall (fun b => Byte.to_N b <= 127) name ->
         Utf8.decode name = map Byte.to_N name)
  /\ (forall bytes : list byte,
         length bytes = 16%nat ->
         decodeAddress (pre ++ bytes ++ post) (byteLength pre) 3
         = Ok (spec_ipv6_text bytes, byteLength pre + 16)
         /\ length (hex_groups bytes) = 8%nat)
  /\ decodeAddress
       [x00; x00; x00; x00; x00; x00; x00; x00;
        x00; x00; x00; x00; x00; x00; x00; x01] 0 3
     = Ok (str "0000:0000:0000:0000:0000:0000:0000:0001", 16).
Proof.
  split; [|split; [|split; [|split; [|split]]]].
  - intros a b c d.
    exact (decodeAddress_split _ pre (IPv4 a b c d) post _ I eq_refl eq_refl).
  - reflexivity.
  - intros name Hlen. rewrite <- N.add_assoc.
    exact (decodeAddress_split _ pre (Domain name) post _ Hlen eq_refl eq_refl).
  - exact utf8_decode_ascii.
  - intros bytes Hlen. split.
    + rewrite <- (ipv6_reduce_spec bytes Hlen).
      exact (decodeAddress_split _ pre (IPv6 bytes) post _ Hlen eq_refl eq_refl).
    + now apply (hex_groups_length 8).
  - reflexivity.
Qed.

(** "example.com" after a kind byte, and the IPv6 loopback address. *)
Lemma address_decoding_witness :
  decodeAddress
    ([x02] ++ x0b :: [x65; x78; x61; x6d; x70; x6c; x65; x2e; x63; x6f; x6d]
       ++ [x47])
    1 2
  = Ok (str "example.com", 13)
  /\ Utf8.decode [x65; x78; x61; x6d; x70; x6c; x65; x2e; x63; x6f; x6d]
     = str "example.com"
  /\ decodeAddress
       ([x03] ++ [x00; x00; x00; x00; x00; x00; x00; x00;
                  x00; x00; x00; x00; x00; x00; x00; x01] ++ [])
       1 3
     = Ok (str "0000:0000:0000:0000:0000:0000:0000:0001", 17).
Proof.
  destruct (address_decoding [x02] [x47]) as (_ & _ & Hdomain & Hascii & _).
  destruct (address_decoding [x03] []) as (_ & _ & _ & _ & Hv6 & _).
  split; [|split].
  - apply (Hdomain [x65; x78; x61; x6d; x70; x6c; x65; x2e; x63; x6f; x6d]).
    simpl. lia.
  - apply (Hascii [x65; x78; x61; x6d; x70; x6c; x65; x2e; x63; x6f; x6d]).
    repeat constructor; vm_compute; discriminate.
  - apply (Hv6 [x00; x00; x00; x00; x00; x00; x00; x00;
                x00; x00; x00; x00; x00; x00; x00; x01]).
    reflexivity.
Defined.

(** ** C6: a frame that stops inside the header *)

Lemma byteLength_firstn (k : nat) (m : ArrayBuffer) :
  (k <= length m)%nat -> byteLength (firstn k m) = N.of_nat k.
Proof. intros H. unfold byteLength. rewrite length_firstn. lia. Qed.

Lemma getUint8_short (m : ArrayBuffer) (offset : N) :
  byteLength m <= offset ->
  getUint8 m offset = Throw (RangeError DataViewOffset).
Proof.
  unfold getUint8, byteLength. intros H.
  destruct (nth_error m (N.to_nat offset)) eqn:E; [|reflexivity].
  assert (N.to_nat offset < length m)%nat
    by (apply nth_error_Some; congruence).
  lia.
Qed.

Lemma getUint16_short (m : ArrayBuffer) (offset : N) :
  byteLength m <= offset + 1 ->
  getUint16 m offset = Throw (RangeError DataViewOffset).
Proof.
  unfold getUint16, byteLength. intros H.
  destruct (nth_error m (N.to_nat (offset + 1))) eqn:E.
  - assert (N.to_nat (offset + 1) < length m)%nat
      by (apply nth_error_Some; congruence).
    lia.
  - now destruct (nth_error m (N.to_nat offset)).
Qed.

Lemma Uint8Array_short (m : ArrayBuffer) (offset len : N) :
  byteLength m < offset + len ->
  Uint8Array m offset len = Throw (RangeError (TypedArrayLength len)).
Proof.
  unfold Uint8Array. intros H.
  replace (offset + len <=? byteLength m) with false
    by (symmetry; apply N.leb_gt; lia).
  reflexivity.
Qed.

Lemma getUint8_firstn (k : nat) (m : ArrayBuffer) (offset : N) :
  offset < N.of_nat k -> getUint8 (firstn k m) offset = getUint8 m offset.
Proof.
  intros H. unfold getUint8. rewrite nth_error_firstn.
  replace (N.to_nat offset <? k)%nat with true
    by (symmetry; apply Nat.ltb_lt; lia).
  reflexivity.
Qed.

Lemma getUint16_firstn (k : nat) (m : ArrayBuffer) (offset : N) :
  offset + 1 < N.of_nat k -> getUint16 (firstn k m) offset = getUint16 m offset.
Proof.
  intros H. unfold getUint16. rewrite !nth_error_firstn.
  replace (N.to_nat offset <? k)%nat with true
    by (symmetry; apply Nat.ltb_lt; lia).
  replace (N.to_nat (offset + 1) <? k)%nat with true
    by (symmetry; apply Nat.ltb_lt; lia).
  reflexivity.
Qed.

Lemma Uint8Array_firstn (k : nat) (m : ArrayBuffer) (offset len : N) :
  (k <= length m)%nat -> offset + len <= N.of_nat k ->
  Uint8Array (firstn k m) offset len = Uint8Array m offset len.
Proof.
  intros Hk H. unfold Uint8Array. rewrite byteLength_firstn by assumption.
  replace (offset + len <=? N.of_nat k) with true
    by (symmetry; apply N.leb_le; lia).
  replace (offset + len <=? byteLength m) with true
    by (symmetry; apply N.leb_le; unfold byteLength; lia).
  rewrite skipn_firstn_comm, firstn_firstn.
  now replace (Nat.min (N.to_nat len) (k - N.to_nat offset)) with (N.to_nat len)
    by lia.
Qed.

(** The address form cut short. *)
Lemma decodeAddress_truncated (H pre : list byte) (a : address) (k : nat)
  (offset : N) :
  address_wf a ->
  H = pre ++ address_body a -> offset = byteLength pre ->
  (k < length H)%nat ->
  exists site,
    decodeAddress (firstn k H) offset (Byte.to_N (address_kind a))
    = Throw (RangeError site).
Proof.
  intros Hwf HH Hoff Hk.
  assert (Hlen : byteLength H = offset + addressLength a).
  { rewrite HH, byteLength_app, (address_body_length a Hwf). lia. }
  assert (Hfk : byteLength (firstn k H) = N.of_nat k)
    by (apply byteLength_firstn; lia).
  unfold byteLength in Hlen.
  destruct a as [a b c d|name|bytes].
  - change (Byte.to_N (address_kind (IPv4 a b c d))) with 1.
    unfold decodeAddress. unfold addressLength in Hlen.
    rewrite Uint8Array_short by lia. eauto.
  - change (Byte.to_N (address_kind (Domain name))) with 2.
    unfold decodeAddress. unfold addressLength in Hlen. simpl in Hwf.
    destruct (N.ltb_spec offset (N.of_nat k)) as [Hin|Hout].
    + rewrite getUint8_firstn by assumption.
      rewrite (getUint8_split H pre (byte_of_N (N.of_nat (length name))) name)
        by assumption.
      rewrite byte_of_N_to_N by lia.
      rewrite Uint8Array_short by lia. eauto.
    + rewrite getUint8_short by lia. eauto.
  - change (Byte.to_N (address_kind (IPv6 bytes))) with 3.
    unfold decodeAddress. unfold addressLength in Hlen.
    rewrite Uint8Array_short by lia. eauto.
Qed.

Lemma parseHeader_truncated
  (env : Env) (secret addons : list byte) (hi lo : byte) (a : address)
  (k : nat) (w : World) :
  length secret = 16%nat ->
  (length addons <= 255)%nat ->
  address_wf a ->
  ((17 <= k)%nat -> secret = uuidToBytes (UUID env)) ->
  (k < length (header_bytes secret addons hi lo a))%nat ->
  exists site,
    fst (parseHeader (firstn k (header_bytes secret addons hi lo a)) env w)
    = Throw (RangeError site).
Proof.
  intros Hs Had Ha Hsec Hk.
  pose proof (read_version secret addons hi lo a []) as R0.
  pose proof (read_secret secret addons hi lo a [] Hs Had) as R1.
  pose proof (read_addons_length secret addons hi lo a [] Hs Had) as R2.
  pose proof (read_command secret addons hi lo a [] Hs Had) as R3.
  pose proof (read_port secret addons hi lo a [] Hs Had) as R4.
  pose proof (read_address_kind secret addons hi lo a [] Hs Had) as R5.
  pose proof (header_bytes_length secret addons hi lo a Hs Had Ha) as HL.
  rewrite app_nil_r in R0, R1, R2, R3, R4, R5.
  set (H := header_bytes secret addons hi lo a) in *.
  set (nA := N.of_nat (length addons)) in *.
  assert (Hfk : byteLength (firstn k H) = N.of_nat k)
    by (apply byteLength_firstn; lia).
  unfold byteLength in HL.
  unfold parseHeader. unfold_m.
  destruct (N.ltb_spec 0 (N.of_nat k));
    [rewrite getUint8_firstn by lia
    |rewrite getUint8_short by lia; reduce_m; eauto].
  rewrite R0. reduce_m. change (0 =? 0) with true. reduce_m.
  destruct (N.leb_spec 17 (N.of_nat k));
    [rewrite Uint8Array_firstn by lia
    |rewrite Uint8Array_short by lia; reduce_m; eauto].
  rewrite R1. reduce_m. rewrite <- Hsec by lia.
  replace (compareArrays secret secret) with true
    by (symmetry; now apply compareArrays_true_iff).
  reduce_m.
  destruct (N.ltb_spec 17 (N.of_nat k));
    [rewrite getUint8_firstn by lia
    |rewrite getUint8_short by lia; reduce_m; eauto].
  rewrite R2. reduce_m.
  destruct (N.ltb_spec (18 + nA) (N.of_nat k));
    [rewrite getUint8_firstn by lia
    |rewrite getUint8_short by lia; reduce_m; eauto].
  rewrite R3. reduce_m. change (1 =? 1) with true. reduce_m.
  destruct (N.ltb_spec (18 + nA + 1 + 1) (N.of_nat k));
    [rewrite getUint16_firstn by lia
    |rewrite getUint16_short by lia; reduce_m; eauto].
  rewrite R4. reduce_m.
  destruct (N.ltb_spec (18 + nA + 1 + 2) (N.of_nat k));
    [rewrite getUint8_firstn by lia
    |rewrite getUint8_short by lia; reduce_m; eauto].
  rewrite R5. reduce_m.
  destruct (decodeAddress_truncated H
              (x00 :: secret ++ byte_of_N nA :: addons
                 ++ [x01; hi; lo; address_kind a]) a k (18 + nA + 1 + 2 + 1) Ha)
    as [site E].
  - subst H nA. unfold header_bytes. list_eq.
  - subst nA. len_eq.
  - assumption.
  - rewrite E. reduce_m. eauto.
Qed.

(** C6. For every first frame that stops inside a header (after [k] bytes
    of version 0, the secret, the add-ons, command 1, the port, the address
    kind and the address, with the secret the configured one as soon as all
    of it is there), header processing fails with TruncatedHeader, the
    runtime's RangeError, and [connect] is not called.  A domain address
    one byte short of its declared length is the case
    [k = length header - 1]. *)
Theorem truncated_header
  (env : Env) (secret addons : list byte) (hi lo : byte) (a : address)
  (k : nat) (w : World) :
  length secret = 16%nat ->
  (length addons <= 255)%nat ->
  address_wf a ->
  ((17 <= k)%nat -> secret = uuidToBytes (UUID env)) ->
  (k < length (header_bytes secret addons hi lo a))%nat ->
  let frame := firstn k (header_bytes secret addons hi lo a) in
  (exists site,
      fst (processVlessHeader frame env w) = Throw (TruncatedHeader site))
  /\ connectCalls (calls_during (processVlessHeader frame env) w) = [].
Proof.
  intros Hs Had Ha Hsec Hk frame.
  destruct (parseHeader_truncated env secret addons hi lo a k w
              Hs Had Ha Hsec Hk) as [site E].
  fold frame in E.
  destruct (no_connect_on_throw _ _ _ _ E) as [E1 E2].
  split; [now exists site | exact E2].
Qed.

(** The domain "example.com" announced with length 11 and cut after 10 of
    its bytes. *)
Lemma truncated_header_witness :
  let header :=
    header_bytes (uuidToBytes sample_uuid) [] x01 xbb
      (Domain [x65; x78; x61; x6d; x70; x6c; x65; x2e; x63; x6f; x6d]) in
  length header = 34%nat
  /\ exists site,
       fst (processVlessHeader (firstn 33 header) sample_env (fresh open_network))
       = Throw (TruncatedHeader site).
Proof.
  intros header. split; [reflexivity|].
  apply (truncated_header sample_env (uuidToBytes sample_uuid) [] x01 xbb
           (Domain [x65; x78; x61; x6d; x70; x6c; x65; x2e; x63; x6f; x6d])
           33 (fresh open_network)).
  - reflexivity.
  - simpl. lia.
  - simpl. lia.
  - reflexivity.
  - simpl. lia.
Defined.

(** ** The two parts of an asynchronous call *)

(** [connect] is its two parts, one after the other. *)
Lemma connect_phases (hostname : jsstring) (port : N) (w : World) :
  connect hostname port w
  = (connect_begin hostname port ;; connect_resume hostname port) w.
Proof.
  unfold connect, connect_begin, connect_resume, bind. cbv zeta.
  change (network (add_log (CallConnect hostname port) w)) with (network w).
  destruct (network w hostname port) eqn:E;
    cbn [network add_log]; rewrite ?E; reflexivity.
Qed.

Lemma processVlessHeader_begin_throw (m : ArrayBuffer) (env : Env) (w : World)
  (e : exn) :
  fst (parseHeader m env w) = Throw e ->
  processVlessHeader_begin m env w
  = (Throw e, add_logs (CallProcessVlessHeader m :: compared m env) w).
Proof.
  intros H. unfold processVlessHeader_begin.
  unfold bind at 1. unfold record at 1. unfold bind at 1.
  pose proof (parseHeader_world m env (add_log (CallProcessVlessHeader m) w)) as Hw.
  rewrite (parseHeader_result m env w (add_log (CallProcessVlessHeader m) w)) in H.
  destruct (parseHeader m env (add_log (CallProcessVlessHeader m) w)) as [r w'].
  simpl in H, Hw. subst r w'.
  now rewrite add_log_add_logs, add_logs_add_logs.
Qed.

(** When the header parses, the connection is asked for and the call
    waits, unless [new Request] refuses the URL. *)
Lemma processVlessHeader_begin_parsed (m : ArrayBuffer) (env : Env) (w : World)
  (p : Parsed) :
  fst (parseHeader m env w) = Ok p ->
  let host := resolveHost env (parsed_host p) in
  let port := parsed_port p in
  let cs := CallProcessVlessHeader m :: compared m env ++ [CallConnect host port] in
  processVlessHeader_begin m env w
  = match network w host port with
    | RequestInvalid text => (Throw (TypeError text), add_logs cs w)
    | _ =>
        (Ok (mkPending host port (firstn (N.to_nat (parsed_offset p)) m)
               (skipn (N.to_nat (parsed_offset p)) m)),
         add_logs cs w)
    end.
Proof.
  intros H host port cs.
  pose proof (parseHeader_in_bounds _ _ _ _ H) as Hb.
  unfold processVlessHeader_begin.
  unfold bind at 1. unfold record at 1. unfold bind at 1.
  pose proof (parseHeader_world m env (add_log (CallProcessVlessHeader m) w)) as Hw.
  rewrite (parseHeader_result m env w (add_log (CallProcessVlessHeader m) w)) in H.
  destruct (parseHeader m env (add_log (CallProcessVlessHeader m) w)) as [r w'].
  simpl in H, Hw. subst r w'.
  fold host. fold port.
  unfold bind, lift, Uint8Array, Uint8Array_from.
  replace (0 + parsed_offset p <=? byteLength m) with true
    by (symmetry; apply N.leb_le; lia).
  replace (parsed_offset p <=? byteLength m) with true
    by (symmetry; apply N.leb_le; lia).
  unfold connect_begin, ret, add_log, add_logs. simpl.
  destruct (network w host port); subst cs; simpl;
    repeat rewrite <- app_assoc; reflexivity.
Qed.

(** When the connection has settled: a socket and the first write, or the
    rejection wrapped by [connect]. *)
Lemma processVlessHeader_resume_cases (c : Pending) (w : World) :
  processVlessHeader_resume c w
  = match network w (pending_host c) (pending_port c) with
    | Established =>
        (Ok (mkVlessHeader (opened w) (pending_host c) (pending_port c)
               (pending_header c)),
         established w [CallWrite (opened w) (pending_data c)])
    | FetchRejected cause =>
        (Throw (UpstreamConnectFailed (pending_host c) (pending_port c) cause), w)
    | RequestInvalid text => (Throw (TypeError text), w)
    end.
Proof.
  unfold processVlessHeader_resume, connect_resume, bind.
  destruct (network w (pending_host c) (pending_port c)); reflexivity.
Qed.

(** [processVlessHeader] is its two parts, one after the other. *)
Lemma processVlessHeader_phases (m : ArrayBuffer) (env : Env) (w : World) :
  processVlessHeader m env w
  = (c <- processVlessHeader_begin m env ;; processVlessHeader_resume c) w.
Proof.
  unfold bind.
  destruct (fst (parseHeader m env w)) as [p|e] eqn:H.
  - pose proof (processVlessHeader_parsed _ _ _ _ H) as E.
    pose proof (processVlessHeader_begin_parsed _ _ _ _ H) as B.
    cbv zeta in E, B. rewrite E, B.
    destruct (network w (resolveHost env (parsed_host p)) (parsed_port p)) eqn:N;
      try reflexivity;
      rewrite processVlessHeader_resume_cases;
      cbn [pending_host pending_port pending_header pending_data network add_logs];
      rewrite N; try reflexivity.
    unfold established, add_logs. cbn [network log opened listeners closed unread
                                        client_frames pending].
    now rewrite <- app_assoc.
  - rewrite (processVlessHeader_throw _ _ _ _ H).
    now rewrite (processVlessHeader_begin_throw _ _ _ _ H).
Qed.

(** ** The handler of index.ts:51 *)

Lemma handler_begin_throw (env : Env) (data : ArrayBuffer) (w : World) (e : exn) :
  fst (parseHeader data env w) = Throw e ->
  handler_begin env data w
  = snd (serverClose 1011 (message e)
           (add_logs (CallProcessVlessHeader data :: compared data env) w)).
Proof.
  intros H. unfold handler_begin.
  now rewrite (processVlessHeader_begin_throw _ _ _ _ H).
Qed.

Lemma handler_begin_parsed (env : Env) (data : ArrayBuffer) (w : World)
  (p : Parsed) :
  fst (parseHeader data env w) = Ok p ->
  let host := resolveHost env (parsed_host p) in
  let port := parsed_port p in
  let cs :=
    CallProcessVlessHeader data :: compared data env ++ [CallConnect host port] in
  handler_begin env data w
  = match network w host port with
    | RequestInvalid text => snd (serverClose 1011 text (add_logs cs w))
    | _ =>
        suspend (mkPending host port (firstn (N.to_nat (parsed_offset p)) data)
                   (skipn (N.to_nat (parsed_offset p)) data))
                (add_logs cs w)
    end.
Proof.
  intros H host port cs. unfold handler_begin.
  pose proof (processVlessHeader_begin_parsed _ _ _ _ H) as B. cbv zeta in B.
  rewrite B. fold host port cs.
  destruct (network w host port); reflexivity.
Qed.

Lemma handler_resume_cases (c : Pending) (w : World) :
  handler_resume c w
  = match network w (pending_host c) (pending_port c) with
    | Established =>
        snd (addMessageListener (EnqueueTo (opened w))
               (established w [CallWrite (opened w) (pending_data c)]))
    | FetchRejected cause =>
        snd (serverClose 1011
               (message (UpstreamConnectFailed (pending_host c) (pending_port c)
                           cause)) w)
    | RequestInvalid text => snd (serverClose 1011 text w)
    end.
Proof.
  unfold handler_resume. rewrite processVlessHeader_resume_cases.
  destruct (network w (pending_host c) (pending_port c)); reflexivity.
Qed.

(** A handler run followed to its end is [processVlessHeader] run to its
    end, then the relay listener or the close. *)
Lemma runListener_complete (env : Env) (data : ArrayBuffer) (w : World) :
  runListener env data OnFirstMessage w
  = match processVlessHeader data env w with
    | (Ok h, w') => snd (addMessageListener (EnqueueTo (remoteSocket h)) w')
    | (Throw e, w') => snd (serverClose 1011 (message e) w')
    end.
Proof.
  rewrite processVlessHeader_phases. unfold bind. cbn [runListener].
  destruct (processVlessHeader_begin data env w) as [[c|e] w1]; reflexivity.
Qed.

Lemma without_last {A} (l : list A) (c : A) :
  firstn (length l) (l ++ [c]) ++ skipn (S (length l)) (l ++ [c]) = l.
Proof.
  rewrite firstn_app, Nat.sub_diag, firstn_all. cbn [firstn].
  rewrite skipn_all2 by (rewrite length_app; simpl; lia).
  now rewrite !app_nil_r.
Qed.

(** It is also the frame followed at once by the settling of the connection
    it has asked for. *)
Lemma runListener_begin_then_settle (env : Env) (data : ArrayBuffer) (w : World) :
  runListener env data OnFirstMessage w
  = deliver env (Settle (length (pending w))) (handler_begin env data w).
Proof.
  cbn [runListener deliver]. unfold handler_begin.
  destruct (fst (parseHeader data env w)) as [p|e] eqn:H.
  - pose proof (processVlessHeader_begin_parsed _ _ _ _ H) as B. cbv zeta in B.
    rewrite B.
    destruct (network w (resolveHost env (parsed_host p)) (parsed_port p)).
    + cbn [suspend pending add_logs].
      rewrite nth_error_app2, Nat.sub_diag by lia. cbn [nth_error].
      f_equal. unfold unsuspend, suspend, add_logs.
      cbn [network log opened listeners closed unread client_frames pending].
      now rewrite without_last.
    + cbn [suspend pending add_logs].
      rewrite nth_error_app2, Nat.sub_diag by lia. cbn [nth_error].
      f_equal. unfold unsuspend, suspend, add_logs.
      cbn [network log opened listeners closed unread client_frames pending].
      now rewrite without_last.
    + cbn [serverClose snd pending add_logs].
      replace (nth_error (pending w) (length (pending w))) with (@None Pending)
        by (symmetry; apply nth_error_None; lia).
      reflexivity.
  - rewrite (processVlessHeader_begin_throw _ _ _ _ H).
    cbn [serverClose snd pending add_logs].
    replace (nth_error (pending w) (length (pending w))) with (@None Pending)
      by (symmetry; apply nth_error_None; lia).
    reflexivity.
Qed.

(** ** The session: what an event changes *)

Lemma headerCalls_app (a b : list call) :
  headerCalls (a ++ b) = headerCalls a ++ headerCalls b.
Proof. apply flat_map_app. Qed.

Lemma headerCalls_cons (c : call) (l : list call) :
  headerCalls (c :: l) = headerCalls [c] ++ headerCalls l.
Proof. unfold headerCalls. simpl. now rewrite app_nil_r. Qed.

Lemma headerCalls_compared (m : ArrayBuffer) (env : Env) :
  headerCalls (compared m env) = [].
Proof. unfold compared. repeat next_read; reflexivity. Qed.

Lemma closeCalls_app (a b : list call) :
  closeCalls (a ++ b) = closeCalls a ++ closeCalls b.
Proof. apply flat_map_app. Qed.

Lemma closeCalls_cons (c : call) (l : list call) :
  closeCalls (c :: l) = closeCalls [c] ++ closeCalls l.
Proof. unfold closeCalls. simpl. now rewrite app_nil_r. Qed.

Lemma closeCalls_compared (m : ArrayBuffer) (env : Env) :
  closeCalls (compared m env) = [].
Proof. unfold compared. repeat next_read; reflexivity. Qed.

Lemma connectCalls_cons (c : call) (l : list call) :
  connectCalls (c :: l) = connectCalls [c] ++ connectCalls l.
Proof. unfold connectCalls. simpl. now rewrite app_nil_r. Qed.

(** The views of a log that ends with the calls of one handler run. *)
Ltac split_cons :=
  repeat match goal with
  | |- context [headerCalls (?c :: ?l)] =>
      lazymatch l with [] => fail | _ => rewrite (headerCalls_cons c l) end
  | |- context [closeCalls (?c :: ?l)] =>
      lazymatch l with [] => fail | _ => rewrite (closeCalls_cons c l) end
  | |- context [connectCalls (?c :: ?l)] =>
      lazymatch l with [] => fail | _ => rewrite (connectCalls_cons c l) end
  | |- context [written ?s (?c :: ?l)] =>
      lazymatch l with [] => fail | _ => rewrite (written_cons s c l) end
  end.

Ltac views :=
  cbn [log snd unsuspend suspend add_logs established serverClose
       addMessageListener];
  rewrite ?headerCalls_app, ?written_app, ?connectCalls_app, ?closeCalls_app;
  split_cons;
  rewrite ?headerCalls_app, ?written_app, ?connectCalls_app, ?closeCalls_app;
  rewrite ?headerCalls_compared, ?written_compared, ?connectCalls_compared,
    ?closeCalls_compared;
  cbn [headerCalls written connectCalls closeCalls flat_map app];
  rewrite ?app_nil_r.

(** The first part of a handler run: the frame goes to
    [processVlessHeader], nothing is written, no socket is opened and no
    listener is added; the run is left waiting or the server socket is
    closed. *)
Lemma handler_begin_world (env : Env) (data : ArrayBuffer) (w : World) :
  let w' := handler_begin env data w in
  network w' = network w
  /\ opened w' = opened w
  /\ listeners w' = listeners w
  /\ unread w' = unread w
  /\ client_frames w' = client_frames w
  /\ (closed w = true -> closed w' = true)
  /\ (exists more, pending w' = pending w ++ more)
  /\ headerCalls (log w') = headerCalls (log w) ++ [data]
  /\ forall s, written s (log w') = written s (log w).
Proof.
  destruct (fst (parseHeader data env w)) as [p|e] eqn:H.
  - pose proof (handler_begin_parsed _ _ _ _ H) as E. cbv zeta in E.
    rewrite E.
    destruct (network w (resolveHost env (parsed_host p)) (parsed_port p));
      cbn [suspend serverClose snd add_logs network opened listeners unread
           client_frames closed pending log];
      repeat split; auto;
      try (eexists; reflexivity); try (exists []; now rewrite app_nil_r);
      intros; now views.
  - rewrite (handler_begin_throw _ _ _ _ H).
    cbn [serverClose snd add_logs network opened listeners unread
         client_frames closed pending log].
    repeat split; auto; try (exists []; now rewrite app_nil_r);
      intros; now views.
Qed.

(** The connection attempts of the first part go to resolved hosts. *)
Lemma handler_begin_connects (env : Env) (data : ArrayBuffer) (w : World) :
  exists cs,
    connectCalls (log (handler_begin env data w)) = connectCalls (log w) ++ cs
    /\ Forall (fun hp => exists h, fst hp = resolveHost env h) cs.
Proof.
  destruct (fst (parseHeader data env w)) as [p|e] eqn:H.
  - pose proof (handler_begin_parsed _ _ _ _ H) as E. cbv zeta in E.
    rewrite E.
    exists [(resolveHost env (parsed_host p), parsed_port p)]. split.
    + destruct (network w (resolveHost env (parsed_host p)) (parsed_port p));
        cbn [suspend serverClose snd add_logs log]; now views.
    + repeat constructor. now exists (parsed_host p).
  - rewrite (handler_begin_throw _ _ _ _ H). exists []. split; [|constructor].
    cbn [serverClose snd add_logs log]. now views.
Qed.

(** The second part: a socket, the first write and the relay listener, or
    the close.  It calls neither [processVlessHeader] nor [connect]'s
    [fetch] again. *)
Lemma handler_resume_world (c : Pending) (w : World) :
  let w' := handler_resume c w in
  network w' = network w
  /\ unread w' = unread w
  /\ client_frames w' = client_frames w
  /\ pending w' = pending w
  /\ (closed w = true -> closed w' = true)
  /\ headerCalls (log w') = headerCalls (log w)
  /\ connectCalls (log w') = connectCalls (log w)
  /\ ((listeners w' = listeners w /\ opened w' = opened w
       /\ forall s, written s (log w') = written s (log w))
      \/ (listeners w' = listeners w ++ [EnqueueTo (opened w)]
          /\ opened w' = S (opened w)
          /\ forall s, written s (log w')
                       = written s (log w)
                           ++ if (opened w =? s)%nat then [pending_data c] else [])).
Proof.
  rewrite handler_resume_cases.
  destruct (network w (pending_host c) (pending_port c));
    cbn [addMessageListener serverClose snd established network opened
         listeners unread client_frames closed pending log];
    repeat split; auto; try (now views).
  - right. repeat split. intros s. now views.
  - left. repeat split. intros s. now views.
  - left. repeat split. intros s. now views.
Qed.

Lemma callListener_world (env : Env) (data : ArrayBuffer) (l : listener)
  (w : World) :
  let w' := callListener env data l w in
  unread w' = unread w /\ client_frames w' = client_frames w.
Proof.
  destruct l as [|socket]; cbn [callListener].
  - pose proof (handler_begin_world env data w) as H. cbv zeta in H.
    now destruct H as (_ & _ & _ & Hu & Hc & _).
  - split; reflexivity.
Qed.

Lemma dispatch_world (env : Env) (data : ArrayBuffer) (ls : list listener) :
  forall w : World,
    let w' := fold_left (fun w l => callListener env data l w) ls w in
    unread w' = unread w /\ client_frames w' = client_frames w.
Proof.
  induction ls as [|l ls IH]; intros w; cbn [fold_left]; [now split|].
  destruct (callListener_world env data l w) as [Hu Hc].
  destruct (IH (callListener env data l w)) as [Hu' Hc'].
  now rewrite Hu', Hc'.
Qed.

Lemma session_world (env : Env) (events : list event) :
  forall w : World,
    unread (session env events w) = unread w ++ remoteChunks events
    /\ client_frames (session env events w) = client_frames w.
Proof.
  induction events as [|ev events IH]; intros w.
  - cbn. now rewrite app_nil_r.
  - change (session env (ev :: events) w)
      with (session env events (deliver env ev w)).
    destruct (IH (deliver env ev w)) as [Hu Hc]. rewrite Hu, Hc.
    destruct ev as [data|i|socket chunk]; cbn [deliver remoteChunks flat_map].
    + destruct (dispatch_world env data (listeners w) w) as [Hu' Hc'].
      now rewrite Hu', Hc'.
    + destruct (nth_error (pending w) i) as [c|]; [|now split].
      pose proof (handler_resume_world c (unsuspend i w)) as H. cbv zeta in H.
      destruct H as (_ & Hu' & Hc' & _). now rewrite Hu', Hc'.
    + cbn. now rewrite <- app_assoc.
Qed.

(** ** The request and its session *)

Lemma gate_websocket (v : jsstring) :
  toLowerCase v = str "websocket" -> notWebSocketUpgrade (Some v) = false.
Proof.
  intros H. destruct v as [|c v]; [discriminate|].
  unfold notWebSocketUpgrade. rewrite H. reflexivity.
Qed.

Lemma gate_other (v : jsstring) :
  toLowerCase v <> str "websocket" -> notWebSocketUpgrade (Some v) = true.
Proof.
  intros H. destruct v as [|c v]; [reflexivity|].
  unfold notWebSocketUpgrade, streq.
  destruct (jsstring_eq_dec (toLowerCase (c :: v)) (str "websocket"));
    [contradiction|reflexivity].
Qed.

(** An accepted request is answered with 101 and followed by its session. *)
Lemma serve_upgraded (net : jsstring -> N -> outcome) (request : Request)
  (env : Env) (events : list event) :
  notWebSocketUpgrade (upgradeHeader request) = false ->
  serve net request env events
  = (Ok (mkResponse 101 None true), session env events (upgraded net)).
Proof. intros H. unfold serve, handleVless. now rewrite H. Qed.

Lemma session_app (env : Env) (a b : list event) (w : World) :
  session env (a ++ b) w = session env b (session env a w).
Proof. apply fold_left_app. Qed.

(** With the handler as the only listener, a frame is the first part of a
    handler run. *)
Lemma deliver_first_frame (env : Env) (data : ArrayBuffer) (w : World) :
  listeners w = [OnFirstMessage] ->
  deliver env (Frame data) w = handler_begin env data w.
Proof. intros H. cbn [deliver]. now rewrite H. Qed.

(** The oldest waiting run goes on when its connection settles. *)
Lemma deliver_settle_first (env : Env) (c : Pending) (w : World)
  (rest : list Pending) :
  pending w = c :: rest ->
  deliver env (Settle 0) w = handler_resume c (unsuspend 0 w).
Proof. intros H. cbn [deliver]. now rewrite H. Qed.

Lemma log_upgraded (net : jsstring -> N -> outcome) : log (upgraded net) = [].
Proof. reflexivity. Qed.

(** The close calls of a session of one frame, before and after the
    connection has settled. *)
Lemma first_frame_closes (net : jsstring -> N -> outcome) (env : Env)
  (data : ArrayBuffer) :
  let w1 := session env [Frame data] (upgraded net) in
  let w2 := session env [Frame data; Settle 0] (upgraded net) in
  match fst (parseHeader data env (fresh net)) with
  | Throw e => closeCalls (log w1) = [(1011, message e)] /\ closed w1 = true
  | Ok p =>
      let host := resolveHost env (parsed_host p) in
      match net host (parsed_port p) with
      | RequestInvalid text =>
          closeCalls (log w1) = [(1011, text)] /\ closed w1 = true
      | FetchRejected cause =>
          closeCalls (log w2)
          = [(1011, str "Failed to connect to " ++ host ++ str ":"
                      ++ toString10 (parsed_port p) ++ str ": " ++ cause)]
          /\ closed w2 = true
      | Established => closeCalls (log w2) = [] /\ closed w2 = false
      end
  end.
Proof.
  intros w1 w2.
  assert (E1 : w1 = handler_begin env data (upgraded net))
    by (apply deliver_first_frame; reflexivity).
  assert (E2 : w2 = deliver env (Settle 0) w1) by reflexivity.
  rewrite (parseHeader_result data env (fresh net) (upgraded net)).
  destruct (fst (parseHeader data env (upgraded net))) as [p|e] eqn:H.
  - pose proof (handler_begin_parsed _ _ _ _ H) as B. cbv zeta in B.
    change (network (upgraded net)) with net in B. cbv zeta.
    destruct (net (resolveHost env (parsed_host p)) (parsed_port p)) eqn:N.
    + rewrite E2, E1, B.
      erewrite deliver_settle_first by reflexivity.
      rewrite handler_resume_cases.
      cbn [unsuspend suspend add_logs network pending_host pending_port].
      change (network (upgraded net)) with net. rewrite N.
      cbn [addMessageListener snd established log closed]. split; [|reflexivity].
      rewrite ?log_upgraded; now views.
    + rewrite E2, E1, B.
      erewrite deliver_settle_first by reflexivity.
      rewrite handler_resume_cases.
      cbn [unsuspend suspend add_logs network pending_host pending_port].
      change (network (upgraded net)) with net. rewrite N.
      cbn [serverClose snd log closed]. split; [|reflexivity].
      rewrite ?log_upgraded; now views.
    + rewrite E1, B. cbn [serverClose snd add_logs log closed upgraded fresh
                          addMessageListener].
      split; [|reflexivity]. rewrite ?log_upgraded; now views.
  - rewrite E1, (handler_begin_throw _ _ _ _ H).
    cbn [serverClose snd add_logs log closed upgraded fresh addMessageListener].
    split; [|reflexivity]. rewrite ?log_upgraded; now views.
Qed.


(** ** C2: nothing is sent back *)

(** C2, as the code has it. Whatever the request, the frames and the
    chunks the remote ends send: no frame is ever passed to [server.send],
    and every remote chunk stays unread. *)
Theorem remote_chunks_never_sent
  (network : jsstring -> N -> outcome) (request : Request) (env : Env)
  (events : list event) :
  client_frames (snd (serve network request env events)) = []
  /\ (notWebSocketUpgrade (upgradeHeader request) = false ->
      unread (snd (serve network request env events)) = remoteChunks events).
Proof.
  unfold serve, handleVless.
  destruct (notWebSocketUpgrade (upgradeHeader request)); cbn.
  - split; [reflexivity | discriminate].
  - match goal with
    | |- context [session env events ?w] =>
        destruct (session_world env events w) as [Hu Hc]; rewrite Hu, Hc
    end.
    split; reflexivity.
Qed.

(** An established session whose remote end answers "HI": the answer stays
    in the socket's readable side and the client receives nothing. *)
Lemma remote_chunks_never_sent_witness :
  let w := snd (serve open_network upgrade_request sample_env
                  [Frame sample_header; Settle 0; RemoteChunk 0%nat [x48; x49]]) in
  connectCalls (log w) = [(str "1.2.3.4", 443)]
  /\ unread w = [(0%nat, [x48; x49])]
  /\ client_frames w = [].
Proof.
  intros w.
  destruct (remote_chunks_never_sent open_network upgrade_request sample_env
              [Frame sample_header; Settle 0; RemoteChunk 0%nat [x48; x49]])
    as [Hc Hu].
  split; [reflexivity|]. split.
  - apply Hu. reflexivity.
  - exact Hc.
Defined.

(** ** Every frame goes through the header parser and every relay *)

Lemma framesOf_cons (ev : event) (events : list event) :
  framesOf (ev :: events) = framesOf [ev] ++ framesOf events.
Proof. unfold framesOf. simpl. now rewrite app_nil_r. Qed.


(** The relay listeners of the first [k] sockets, called with one frame. *)
Lemma relay_listeners_write (env : Env) (data : ArrayBuffer) (k : nat) :
  forall w : World,
    let w' := fold_left (fun w l => callListener env data l w)
                (map EnqueueTo (seq 0 k)) w in
    listeners w' = listeners w /\ opened w' = opened w
    /\ headerCalls (log w') = headerCalls (log w)
    /\ forall s, written s (log w')
                 = written s (log w) ++ if (s <? k)%nat then [data] else [].
Proof.
  induction k as [|k IH]; intros w.
  - cbn. repeat split. intros s. now rewrite app_nil_r.
  - rewrite seq_S, map_app, fold_left_app. cbn [Nat.add map fold_left].
    destruct (IH w) as (Hl & Ho & Hh & Hw).
    cbn [callListener write record snd add_log listeners opened log].
    repeat split; auto.
    + rewrite headerCalls_app. cbn [headerCalls flat_map].
      rewrite app_nil_r. exact Hh.
    + intros s. rewrite written_app, Hw, <- app_assoc. f_equal.
      unfold written. cbn [flat_map app].
      destruct (Nat.eqb_spec k s) as [->|Hne].
      * replace (s <? s)%nat with false by (symmetry; apply Nat.ltb_ge; lia).
        replace (s <? S s)%nat with true by (symmetry; apply Nat.ltb_lt; lia).
        reflexivity.
      * destruct (Nat.ltb_spec s k).
        -- replace (s <? S k)%nat with true by (symmetry; apply Nat.ltb_lt; lia).
           reflexivity.
        -- replace (s <? S k)%nat with false by (symmetry; apply Nat.ltb_ge; lia).
           reflexivity.
Qed.

(** One event of a session: the frame, if it is one, goes to
    [processVlessHeader] and to every socket opened so far. *)
Lemma deliver_wired (env : Env) (ev : event) (w : World) :
  wired w ->
  let w' := deliver env ev w in
  wired w'
  /\ (opened w <= opened w')%nat
  /\ headerCalls (log w') = headerCalls (log w) ++ framesOf [ev]
  /\ forall s, (s < opened w)%nat ->
               written s (log w') = written s (log w) ++ framesOf [ev].
Proof.
  unfold wired. intros Hl. destruct ev as [data|i|socket chunk].
  - assert (Hd : deliver env (Frame data) w
                 = fold_left (fun w l => callListener env data l w)
                     (map EnqueueTo (seq 0 (opened w)))
                     (handler_begin env data w))
      by (cbn [deliver]; rewrite Hl; reflexivity).
    pose proof (handler_begin_world env data w) as Hb. cbv zeta in Hb.
    destruct Hb as (_ & Ho1 & Hl1 & _ & _ & _ & _ & Hh1 & Hw1).
    destruct (relay_listeners_write env data (opened w)
                (handler_begin env data w)) as (Hl2 & Ho2 & Hh2 & Hw2).
    cbv zeta. rewrite Hd, Hl2, Ho2, Hh2, Hl1, Ho1, Hh1. repeat split; auto.
    intros s Hs. rewrite Hw2, Hw1.
    replace (s <? opened w)%nat with true by (symmetry; apply Nat.ltb_lt; lia).
    reflexivity.
  - cbn [deliver]. destruct (nth_error (pending w) i) as [c|].
    + pose proof (handler_resume_world c (unsuspend i w)) as Hr. cbv zeta in Hr.
      cbn [unsuspend network unread client_frames pending closed log listeners
           opened] in Hr.
      destruct Hr as (_ & _ & _ & _ & _ & Hh & _ & [(Hl' & Ho & Hw)|(Hl' & Ho & Hw)]).
      * rewrite Hl', Ho, Hh. cbn [framesOf flat_map]. rewrite app_nil_r.
        repeat split; auto. intros s Hs. now rewrite Hw, app_nil_r.
      * rewrite Hl', Ho, Hh, Hl. cbn [framesOf flat_map]. rewrite app_nil_r.
        repeat split; auto.
        -- rewrite seq_S, map_app. reflexivity.
        -- intros s Hs. rewrite Hw.
           replace (opened w =? s)%nat with false
             by (symmetry; apply Nat.eqb_neq; lia).
           reflexivity.
    + cbn [framesOf flat_map]. rewrite app_nil_r. repeat split; auto.
      intros s Hs. now rewrite app_nil_r.
  - cbn [deliver listeners opened log framesOf flat_map]. rewrite app_nil_r.
    repeat split; auto. intros s Hs. now rewrite app_nil_r.
Qed.

(** A whole session, whatever its events and their order:
    [processVlessHeader] has been called on every frame, not only on the
    first, and every frame has been written to every socket that was
    already open when the session started. *)
Lemma session_wired (env : Env) (events : list event) :
  forall w : World,
    wired w ->
    let w' := session env events w in
    wired w'
    /\ (opened w <= opened w')%nat
    /\ headerCalls (log w') = headerCalls (log w) ++ framesOf events
    /\ forall s, (s < opened w)%nat ->
                 written s (log w') = written s (log w) ++ framesOf events.
Proof.
  induction events as [|ev events IH]; intros w Hl.
  - cbn. repeat split; auto; intros; now rewrite app_nil_r.
  - change (session env (ev :: events) w)
      with (session env events (deliver env ev w)).
    destruct (deliver_wired env ev w Hl) as (Hl1 & Ho1 & Hh1 & Hw1).
    destruct (IH (deliver env ev w) Hl1) as (Hl2 & Ho2 & Hh2 & Hw2).
    cbv zeta. rewrite (framesOf_cons ev events).
    repeat split; auto.
    + lia.
    + now rewrite Hh2, Hh1, <- app_assoc.
    + intros s Hs. rewrite Hw2 by lia. rewrite Hw1 by lia.
      now rewrite <- app_assoc.
Qed.

Lemma wired_upgraded (net : jsstring -> N -> outcome) : wired (upgraded net).
Proof. reflexivity. Qed.

(** The relay listeners close nothing and leave the waiting runs alone. *)
Lemma relay_listeners_quiet (env : Env) (data : ArrayBuffer)
  (sockets : list SocketId) :
  forall w : World,
    let w' := fold_left (fun w l => callListener env data l w)
                (map EnqueueTo sockets) w in
    closeCalls (log w') = closeCalls (log w) /\ pending w' = pending w.
Proof.
  induction sockets as [|s sockets IH]; intros w; [now split|].
  cbn [map fold_left].
  destruct (IH (callListener env data (EnqueueTo s) w)) as (Hc & Hp).
  cbv zeta. rewrite Hc, Hp.
  cbn [callListener write record snd add_log log pending].
  split; [|reflexivity]. rewrite closeCalls_app. cbn. now rewrite app_nil_r.
Qed.

Lemma session_network (env : Env) (events : list event) :
  forall w : World, network (session env events w) = network w.
Proof.
  induction events as [|ev events IH]; intros w; [reflexivity|].
  change (session env (ev :: events) w)
    with (session env events (deliver env ev w)).
  rewrite IH. destruct ev as [data|i|socket chunk]; cbn [deliver].
  - generalize (listeners w). intros ls. revert w.
    induction ls as [|l ls IHl]; intros w; [reflexivity|].
    cbn [fold_left]. rewrite IHl. destruct l as [|s]; cbn [callListener].
    + pose proof (handler_begin_world env data w) as Hb. cbv zeta in Hb.
      now destruct Hb as (Hn & _).
    + reflexivity.
  - destruct (nth_error (pending w) i) as [c|]; [|reflexivity].
    pose proof (handler_resume_world c (unsuspend i w)) as Hr. cbv zeta in Hr.
    now destruct Hr as (Hn & _).
  - reflexivity.
Qed.

(** The close calls a frame adds, at any point of a session. *)
Lemma frame_closes (env : Env) (data : ArrayBuffer) (w : World) :
  wired w ->
  closeCalls (log (deliver env (Frame data) w))
  = closeCalls (log w)
      ++ match fst (parseHeader data env w) with
         | Throw e => [(1011, message e)]
         | Ok p =>
             match network w (resolveHost env (parsed_host p)) (parsed_port p) with
             | RequestInvalid text => [(1011, text)]
             | _ => []
             end
         end.
Proof.
  unfold wired. intros Hl.
  assert (Hd : deliver env (Frame data) w
               = fold_left (fun w l => callListener env data l w)
                   (map EnqueueTo (seq 0 (opened w)))
                   (handler_begin env data w))
    by (cbn [deliver]; rewrite Hl; reflexivity).
  destruct (relay_listeners_quiet env data (seq 0 (opened w))
              (handler_begin env data w)) as (Hc & _).
  rewrite Hd, Hc.
  destruct (fst (parseHeader data env w)) as [p|e] eqn:H.
  - pose proof (handler_begin_parsed _ _ _ _ H) as B. cbv zeta in B.
    rewrite B.
    destruct (network w (resolveHost env (parsed_host p)) (parsed_port p));
      now views.
  - rewrite (handler_begin_throw _ _ _ _ H). now views.
Qed.

(** The close calls the settling of a connection adds. *)
Lemma settle_closes (env : Env) (i : nat) (w : World) :
  closeCalls (log (deliver env (Settle i) w))
  = closeCalls (log w)
      ++ match nth_error (pending w) i with
         | None => []
         | Some c =>
             match network w (pending_host c) (pending_port c) with
             | Established => []
             | FetchRejected cause =>
                 [(1011, str "Failed to connect to " ++ pending_host c ++ str ":"
                           ++ toString10 (pending_port c) ++ str ": " ++ cause)]
             | RequestInvalid text => [(1011, text)]
             end
         end.
Proof.
  cbn [deliver].
  destruct (nth_error (pending w) i) as [c|]; [|now rewrite app_nil_r].
  rewrite handler_resume_cases. cbn [unsuspend network].
  destruct (network w (pending_host c) (pending_port c)); now views.
Qed.

(** ** C9: 426, 101 and the abnormal close *)

(** C9. A request whose Upgrade header is absent, is empty, or is any text
    whose lower-case form is not "websocket" gets the 426 response and
    nothing else happens; a request whose Upgrade header is "websocket" in
    any letter case gets a 101 response carrying the client socket, with
    the message handler registered.  In the session of such a request:
    - whatever the first frame, a header that does not parse closes the
      server socket with code 1011 and the error's message as the reason;
      so does a URL that [new Request] refuses; so does, once it has
      settled, a connection that [fetch] rejects, with "Failed to connect
      to host:port: cause" as the reason; and a header whose connection is
      established closes nothing;
    - at any later point, whatever the events so far, a frame adds one
      close call with code 1011 and the error's message when it does not
      parse as a header or its URL is refused, and none otherwise; a
      connection that settles adds one with code 1011 when it is rejected,
      and none when it is established.
    1011 is not 1000. *)
Theorem upgrade_gate_and_abnormal_close
  (request : Request) (env : Env) (w : World)
  (net : jsstring -> N -> outcome) (data : ArrayBuffer)
  (events : list event) (i : nat) :
  let refused :=
    (Ok (mkResponse 426 (Some (str "Expected a WebSocket Upgrade request")) false),
     w) in
  (upgradeHeader request = None -> handleVless request env w = refused)
  /\ (upgradeHeader request = Some [] -> handleVless request env w = refused)
  /\ (forall v, upgradeHeader request = Some v ->
        toLowerCase v <> str "websocket" ->
        handleVless request env w = refused)
  /\ (forall v, upgradeHeader request = Some v ->
        toLowerCase v = str "websocket" ->
        (exists w',
           handleVless request env w = (Ok (mkResponse 101 None true), w')
           /\ listeners w' = listeners w ++ [OnFirstMessage]
           /\ log w' = log w /\ closed w' = closed w)
        /\ (let w1 := snd (serve net request env [Frame data]) in
            let w2 := snd (serve net request env [Frame data; Settle 0]) in
            match fst (parseHeader data env (fresh net)) with
            | Throw e =>
                closeCalls (log w1) = [(1011, message e)] /\ closed w1 = true
            | Ok p =>
                let host := resolveHost env (parsed_host p) in
                match net host (parsed_port p) with
                | RequestInvalid text =>
                    closeCalls (log w1) = [(1011, text)] /\ closed w1 = true
                | FetchRejected cause =>
                    closeCalls (log w2)
                    = [(1011, str "Failed to connect to " ++ host ++ str ":"
                                ++ toString10 (parsed_port p) ++ str ": " ++ cause)]
                    /\ closed w2 = true
                | Established => closeCalls (log w2) = [] /\ closed w2 = false
                end
            end)
        /\ (let before := snd (serve net request env events) in
            closeCalls (log (snd (serve net request env (events ++ [Frame data]))))
            = closeCalls (log before)
                ++ match fst (parseHeader data env (fresh net)) with
                   | Throw e => [(1011, message e)]
                   | Ok p =>
                       match net (resolveHost env (parsed_host p)) (parsed_port p)
                       with
                       | RequestInvalid text => [(1011, text)]
                       | _ => []
                       end
                   end)
        /\ (let before := snd (serve net request env events) in
            closeCalls (log (snd (serve net request env (events ++ [Settle i]))))
            = closeCalls (log before)
                ++ match nth_error (pending before) i with
                   | None => []
                   | Some c =>
                       match net (pending_host c) (pending_port c) with
                       | Established => []
                       | FetchRejected cause =>
                           [(1011, str "Failed to connect to " ++ pending_host c
                                     ++ str ":" ++ toString10 (pending_port c)
                                     ++ str ": " ++ cause)]
                       | RequestInvalid text => [(1011, text)]
                       end
                   end))
  /\ 1011 <> 1000.
Proof.
  intros refused. subst refused. unfold handleVless.
  split; [|split; [|split; [|split]]].
  - intros ->. reflexivity.
  - intros ->. reflexivity.
  - intros v -> Hv. now rewrite (gate_other v Hv).
  - intros v Hr Hv. pose proof (gate_websocket v Hv) as Hg.
    rewrite <- Hr in Hg. split; [|split; [|split]].
    + rewrite Hg. eexists. split; [reflexivity|]. cbn. auto.
    + rewrite !(serve_upgraded net request env _ Hg). cbn [snd].
      exact (first_frame_closes net env data).
    + rewrite !(serve_upgraded net request env _ Hg). cbn [snd].
      rewrite session_app.
      change (session env [Frame data] ?w0) with (deliver env (Frame data) w0).
      destruct (session_wired env events (upgraded net) (wired_upgraded net))
        as (Hl & _).
      rewrite (frame_closes env data _ Hl), session_network.
      now rewrite (parseHeader_result data env (fresh net)
                     (session env events (upgraded net))).
    + rewrite !(serve_upgraded net request env _ Hg). cbn [snd].
      rewrite session_app.
      change (session env [Settle i] ?w0) with (deliver env (Settle i) w0).
      now rewrite settle_closes, session_network.
  - discriminate.
Qed.

(** Requests without the header, with an empty one, with "h2c" and with
    "WebSocket"; then, in the session of the last one, first frames of
    version 1 and of a wrong secret, a header whose connection is refused
    and the same header when it is established; and a frame that does not
    parse after the connection has been established. *)
Lemma upgrade_gate_and_abnormal_close_witness :
  let closes net events :=
    closeCalls (log (snd (serve net upgrade_request sample_env events))) in
  status_of (handleVless plain_request sample_env (fresh open_network)) = Some 426
  /\ status_of (handleVless (mkRequest (Some [])) sample_env (fresh open_network))
     = Some 426
  /\ status_of (handleVless (mkRequest (Some (str "h2c"))) sample_env
                  (fresh open_network)) = Some 426
  /\ status_of (handleVless upgrade_request sample_env (fresh open_network))
     = Some 101
  /\ closes open_network [Frame [x01]]
     = [(1011, str "Unsupported VLESS version: 1")]
  /\ closes open_network [Frame (x00 :: repeat xff 16)]
     = [(1011, str "Invalid UUID")]
  /\ closes refusing_network [Frame sample_header; Settle 0]
     = [(1011, str "Failed to connect to 1.2.3.4:443: refused")]
  /\ closes open_network [Frame sample_header; Settle 0] = []
  /\ closes open_network ([Frame sample_header; Settle 0] ++ [Frame [x03]])
     = [(1011, str "Unsupported VLESS version: 3")].
Proof.
  intros closes.
  pose proof (upgrade_gate_and_abnormal_close plain_request sample_env
                (fresh open_network) open_network [] [] 0%nat) as (H1 & _).
  pose proof (upgrade_gate_and_abnormal_close (mkRequest (Some [])) sample_env
                (fresh open_network) open_network [] [] 0%nat) as (_ & H2 & _).
  pose proof (upgrade_gate_and_abnormal_close (mkRequest (Some (str "h2c")))
                sample_env (fresh open_network) open_network [] [] 0%nat)
    as (_ & _ & H3 & _).
  pose proof (upgrade_gate_and_abnormal_close upgrade_request sample_env
                (fresh open_network) open_network [x01] [] 0%nat)
    as (_ & _ & _ & H4 & _).
  pose proof (upgrade_gate_and_abnormal_close upgrade_request sample_env
                (fresh open_network) open_network (x00 :: repeat xff 16) []
                0%nat)
    as (_ & _ & _ & H5 & _).
  pose proof (upgrade_gate_and_abnormal_close upgrade_request sample_env
                (fresh open_network) refusing_network sample_header [] 0%nat)
    as (_ & _ & _ & H6 & _).
  pose proof (upgrade_gate_and_abnormal_close upgrade_request sample_env
                (fresh open_network) open_network sample_header [] 0%nat)
    as (_ & _ & _ & H7 & _).
  pose proof (upgrade_gate_and_abnormal_close upgrade_request sample_env
                (fresh open_network) open_network [x03]
                [Frame sample_header; Settle 0] 0%nat)
    as (_ & _ & _ & H8 & _).
  cbv zeta in H1, H2, H3.
  split; [rewrite H1; reflexivity|].
  split; [rewrite H2; reflexivity|].
  split; [rewrite (H3 (str "h2c")); [reflexivity|reflexivity|discriminate]|].
  destruct (H4 (str "WebSocket") eq_refl eq_refl) as ((w' & E4 & _) & C4 & _).
  destruct (H5 (str "WebSocket") eq_refl eq_refl) as (_ & C5 & _).
  destruct (H6 (str "WebSocket") eq_refl eq_refl) as (_ & C6 & _).
  destruct (H7 (str "WebSocket") eq_refl eq_refl) as (_ & C7 & _).
  destruct (H8 (str "WebSocket") eq_refl eq_refl) as (_ & _ & C8 & _).
  split; [rewrite E4; reflexivity|].
  subst closes. cbv beta.
  split; [exact (proj1 C4)|]. split; [exact (proj1 C5)|].
  split; [exact (proj1 C6)|]. split; [exact (proj1 C7)|].
  cbv zeta in C8. rewrite C8. reflexivity.
Defined.

(** ** C1: the header parser and the later frames *)

(** C1, as the code has it. The first frame carries the header and the
    payload "P"; the second frame is "Q".  When the connection has settled
    before "Q" arrives, socket 0 receives "P" then "Q", but
    [processVlessHeader] is called on the second frame too: "Q" is not a
    header, so the server socket is closed with 1011.  When "Q" arrives
    before the connection has settled, [processVlessHeader] is called on it
    all the same, the server socket is closed with 1011, and socket 0
    receives "P" only. *)
Theorem header_parser_called_on_second_frame :
  let w := snd (serve open_network upgrade_request sample_env
                  [Frame (sample_header ++ [x50]); Settle 0; Frame [x51]]) in
  let w' := snd (serve open_network upgrade_request sample_env
                   [Frame (sample_header ++ [x50]); Frame [x51]; Settle 0]) in
  headerCalls (log w) = [sample_header ++ [x50]; [x51]]
  /\ written 0%nat (log w) = [[x50]; [x51]]
  /\ closeCalls (log w) = [(1011, str "Unsupported VLESS version: 81")]
  /\ listeners w = [OnFirstMessage; EnqueueTo 0%nat]
  /\ headerCalls (log w') = [sample_header ++ [x50]; [x51]]
  /\ written 0%nat (log w') = [[x50]]
  /\ closeCalls (log w') = [(1011, str "Unsupported VLESS version: 81")]
  /\ listeners w' = [OnFirstMessage; EnqueueTo 0%nat].
Proof. cbv zeta. repeat split; reflexivity. Qed.

(** A second frame that is itself a header opens a second connection. *)
Example second_header_opens_second_socket :
  let w := snd (serve open_network upgrade_request sample_env
                  [Frame (sample_header ++ [x50]); Settle 0;
                   Frame (sample_header ++ [x51]); Settle 0; Frame [x00]]) in
  connectCalls (log w) = [(str "1.2.3.4", 443); (str "1.2.3.4", 443)]
  /\ written 0%nat (log w) = [[x50]; sample_header ++ [x51]; [x00]]
  /\ written 1%nat (log w) = [[x51]; [x00]].
Proof. cbv zeta. repeat split; reflexivity. Qed.

(** A frame that arrives while the first connection has not settled is
    parsed and reaches no socket; frames go on being dispatched after
    [server.close]. *)
Example frame_before_the_connection_settles :
  let w := snd (serve open_network upgrade_request sample_env
                  [Frame (sample_header ++ [x50]); Frame [x51]; Settle 0;
                   Frame [x52]]) in
  headerCalls (log w) = [sample_header ++ [x50]; [x51]; [x52]]
  /\ written 0%nat (log w) = [[x50]; [x52]]
  /\ closeCalls (log w)
     = [(1011, str "Unsupported VLESS version: 81");
        (1011, str "Unsupported VLESS version: 82")].
Proof. cbv zeta. repeat split; reflexivity. Qed.

(** ** C3: a wrong secret, and the frame after it *)

(** C3, as the code has it. A first frame with version byte 0 whose 16-byte
    secret field differs from the configured secret makes header processing
    fail with InvalidSecret before any connection attempt, and the server
    socket is closed with 1011 "Invalid UUID".  But the handler stays
    registered and frames are still dispatched: when the next frame of the
    same session is a well-formed header with the configured secret,
    [processVlessHeader] is called on it and [connect] is called for the
    host and port it names. *)
Theorem invalid_secret_then_header_connects
  (net : jsstring -> N -> outcome) (request : Request) (env : Env)
  (received rest addons : list byte) (hi lo : byte) (a : address)
  (payload : list byte) :
  notWebSocketUpgrade (upgradeHeader request) = false ->
  length received = 16%nat ->
  received <> uuidToBytes (UUID env) ->
  (length addons <= 255)%nat ->
  address_wf a ->
  let bad := x00 :: received ++ rest in
  let good := header_bytes (uuidToBytes (UUID env)) addons hi lo a ++ payload in
  let w1 := snd (serve net request env [Frame bad]) in
  let w2 := snd (serve net request env [Frame bad; Frame good]) in
  (forall w, fst (processVlessHeader bad env w) = Throw InvalidSecret
             /\ connectCalls (calls_during (processVlessHeader bad env) w) = [])
  /\ connectCalls (log w1) = []
  /\ closeCalls (log w1) = [(1011, str "Invalid UUID")]
  /\ headerCalls (log w2) = [bad; good]
  /\ connectCalls (log w2) = [(resolveHost env (render a), port_of hi lo)].
Proof.
  intros Hup Hl Hne Had Ha bad good w1 w2.
  assert (Hbad : forall w, fst (parseHeader bad env w) = Throw InvalidSecret)
    by (intros w; now apply parseHeader_invalid_secret).
  pose proof (uuidToBytes_length (UUID env)) as Hlen.
  assert (Hgood : forall w, fst (parseHeader good env w)
               = Ok (mkParsed (port_of hi lo) (render a)
                       (byteLength (header_bytes (uuidToBytes (UUID env))
                                      addons hi lo a))))
    by (intros w; subst good; rewrite parseHeader_header_bytes; auto).
  assert (E1 : w1 = handler_begin env bad (upgraded net)).
  { subst w1. rewrite (serve_upgraded _ _ _ _ Hup). cbn [snd].
    apply deliver_first_frame. reflexivity. }
  assert (E2 : w2 = handler_begin env good w1).
  { subst w2. rewrite (serve_upgraded _ _ _ _ Hup). cbn [snd].
    change (session env [Frame bad; Frame good] (upgraded net))
      with (deliver env (Frame good)
              (session env [Frame bad] (upgraded net))).
    subst w1. rewrite (serve_upgraded _ _ _ _ Hup). cbn [snd].
    apply deliver_first_frame.
    change (session env [Frame bad] (upgraded net))
      with (deliver env (Frame bad) (upgraded net)).
    rewrite deliver_first_frame by reflexivity.
    pose proof (handler_begin_world env bad (upgraded net)) as Hb.
    cbv zeta in Hb. now destruct Hb as (_ & _ & -> & _). }
  rewrite (handler_begin_throw _ _ _ _ (Hbad _)) in E1.
  split; [intros w; exact (no_connect_on_throw _ _ _ _ (Hbad w))|].
  split; [rewrite E1, ?log_upgraded; now views|].
  split; [rewrite E1, ?log_upgraded; now views|].
  pose proof (handler_begin_parsed _ _ _ _ (Hgood w1)) as B. cbv zeta in B.
  cbn [parsed_host parsed_port parsed_offset] in B.
  assert (Hh1 : headerCalls (log w1) = [bad])
    by (rewrite E1, ?log_upgraded; now views).
  assert (Hc1 : connectCalls (log w1) = [])
    by (rewrite E1, ?log_upgraded; now views).
  rewrite E2, B.
  destruct (network w1 (resolveHost env (render a)) (port_of hi lo));
    split; views; rewrite ?Hh1, ?Hc1; reflexivity.
Qed.

(** The configured secret with its last byte changed from ff to fe, then the
    sample header. *)
Lemma invalid_secret_then_header_connects_witness :
  let bad :=
    x00 :: [x00; x11; x22; x33; x44; x55; x66; x77;
            x88; x99; xaa; xbb; xcc; xdd; xee; xfe]
        ++ [x00; x01; x01; xbb; x01; x01; x02; x03; x04] in
  fst (processVlessHeader bad sample_env (fresh open_network)) = Throw InvalidSecret
  /\ closeCalls (log (snd (serve open_network upgrade_request sample_env
                             [Frame bad])))
     = [(1011, str "Invalid UUID")]
  /\ connectCalls (log (snd (serve open_network upgrade_request sample_env
                               [Frame bad])))
     = []
  /\ connectCalls (log (snd (serve open_network upgrade_request sample_env
                               [Frame bad; Frame sample_header])))
     = [(str "1.2.3.4", 443)].
Proof.
  intros bad.
  destruct (invalid_secret_then_header_connects open_network upgrade_request
              sample_env
              [x00; x11; x22; x33; x44; x55; x66; x77;
               x88; x99; xaa; xbb; xcc; xdd; xee; xfe]
              [x00; x01; x01; xbb; x01; x01; x02; x03; x04]
              [] x01 xbb (IPv4 x01 x02 x03 x04) [])
    as (E1 & E2 & E3 & _ & E5).
  - reflexivity.
  - reflexivity.
  - vm_compute. discriminate.
  - simpl. lia.
  - exact I.
  - split; [exact (proj1 (E1 (fresh open_network)))|].
    split; [exact E3|]. split; [exact E2|].
    rewrite app_nil_r in E5. exact E5.
Defined.

(** * Further properties of the code *)

(** ** [uuidToBytes]: reading a UUID back *)

Lemma hexval_digits (c d : N) :
  hexval c = Some d ->
  In (c, d)
     [(48, 0); (49, 1); (50, 2); (51, 3); (52, 4); (53, 5); (54, 6); (55, 7);
      (56, 8); (57, 9); (97, 10); (98, 11); (99, 12); (100, 13); (101, 14);
      (102, 15); (65, 10); (66, 11); (67, 12); (68, 13); (69, 14); (70, 15)].
Proof.
  unfold hexval.
  destruct ((48 <=? c) && (c <=? 57)) eqn:E1.
  { apply andb_true_iff in E1. destruct E1 as [A B].
    apply N.leb_le in A, B. intros [= <-].
    assert (c = 48 \/ c = 49 \/ c = 50 \/ c = 51 \/ c = 52 \/ c = 53 \/ c = 54
            \/ c = 55 \/ c = 56 \/ c = 57) as H by lia.
    repeat (destruct H as [->|H]; [simpl; tauto|]). subst. simpl; tauto. }
  destruct ((97 <=? c) && (c <=? 102)) eqn:E2.
  { apply andb_true_iff in E2. destruct E2 as [A B].
    apply N.leb_le in A, B. intros [= <-].
    assert (c = 97 \/ c = 98 \/ c = 99 \/ c = 100 \/ c = 101 \/ c = 102)
      as H by lia.
    repeat (destruct H as [->|H]; [simpl; tauto|]). subst. simpl; tauto. }
  destruct ((65 <=? c) && (c <=? 70)) eqn:E3; [|discriminate].
  apply andb_true_iff in E3. destruct E3 as [A B].
  apply N.leb_le in A, B. intros [= <-].
  assert (c = 65 \/ c = 66 \/ c = 67 \/ c = 68 \/ c = 69 \/ c = 70) as H by lia.
  repeat (destruct H as [->|H]; [simpl; tauto|]). subst. simpl; tauto.
Qed.

Lemma byte_of_to_N (b : byte) : byte_of_N (Byte.to_N b) = b.
Proof.
  unfold byte_of_N. pose proof (Byte.to_N_bounded b).
  rewrite N.mod_small by lia. now rewrite Byte.of_to_N.
Qed.

Lemma parseInt16_pair (c1 c2 d1 d2 : N) :
  hexval c1 = Some d1 -> hexval c2 = Some d2 ->
  parseInt16 [c1; c2] = Some (Z.of_N (16 * d1 + d2)).
Proof.
  intros H1 H2. apply hexval_digits in H1, H2.
  simpl in H1, H2.
  repeat (destruct H1 as [H1|H1]; [injection H1 as <- <-|]); try contradiction;
    repeat (destruct H2 as [H2|H2]; [injection H2 as <- <-|]); try contradiction;
    reflexivity.
Qed.

Lemma ToUint8_pair (b : byte) (c1 c2 : N) :
  hexval c1 = Some (Byte.to_N b / 16) ->
  hexval c2 = Some (Byte.to_N b mod 16) ->
  ToUint8 (parseInt16 [c1; c2]) = b.
Proof.
  intros H1 H2. rewrite (parseInt16_pair _ _ _ _ H1 H2).
  assert (E : 16 * (Byte.to_N b / 16) + Byte.to_N b mod 16 = Byte.to_N b)
    by (symmetry; apply N.div_mod; discriminate).
  rewrite E. unfold ToUint8.
  pose proof (Byte.to_N_bounded b).
  rewrite Z.mod_small by lia. rewrite N2Z.id. apply byte_of_to_N.
Qed.

Lemma uuidToBytes_loop_spelled (bytes : list byte) :
  forall (pre s : jsstring) (k : N),
    N.of_nat (length pre) = k * 2 ->
    spelled bytes s ->
    uuidToBytes_loop (pre ++ s) k (length bytes) = bytes.
Proof.
  induction bytes as [|b bytes IH]; intros pre s k Hpre Hs; [reflexivity|].
  destruct s as [|c1 [|c2 s']]; try contradiction.
  destruct Hs as (H1 & H2 & Hs).
  cbn [length uuidToBytes_loop]. f_equal.
  - unfold substring.
    replace (N.to_nat (k * 2 + 2 - k * 2)) with 2%nat by lia.
    replace (N.to_nat (k * 2)) with (length pre) by lia.
    rewrite skipn_app, Nat.sub_diag, skipn_all. cbn [skipn app firstn].
    now apply ToUint8_pair.
  - replace (pre ++ c1 :: c2 :: s') with ((pre ++ [c1; c2]) ++ s')
      by (now rewrite <- app_assoc).
    apply IH; [|assumption]. rewrite length_app. cbn [length]. lia.
Qed.

(** X1. A UUID string that, hyphens apart, starts with the 32 hexadecimal
    digits of 16 bytes (upper or lower case) is converted back to those
    bytes; whatever follows the 32 digits is ignored. *)
Theorem uuidToBytes_round_trip (uuid : jsstring) (bytes : list byte) :
  length bytes = 16%nat ->
  spelled bytes (remove_hyphens uuid) ->
  uuidToBytes uuid = bytes.
Proof.
  intros Hlen Hs. unfold uuidToBytes. rewrite <- Hlen.
  now apply (uuidToBytes_loop_spelled bytes [] (remove_hyphens uuid) 0).
Qed.

Lemma hexval_hexdigit (d : N) : d < 16 -> hexval (hexdigit d) = Some d.
Proof.
  intros H.
  assert (d = 0 \/ d = 1 \/ d = 2 \/ d = 3 \/ d = 4 \/ d = 5 \/ d = 6 \/ d = 7
          \/ d = 8 \/ d = 9 \/ d = 10 \/ d = 11 \/ d = 12 \/ d = 13 \/ d = 14
          \/ d = 15) as E by lia.
  repeat (destruct E as [->|E]; [reflexivity|]). now subst.
Qed.

Lemma spelled_hex2 (bytes : list byte) (rest : jsstring) :
  spelled bytes (flat_map hex2 bytes ++ rest).
Proof.
  induction bytes as [|b bytes IH]; [exact I|].
  cbn [flat_map hex2 app spelled]. pose proof (Byte.to_N_bounded b).
  split; [|split; [|exact IH]]; apply hexval_hexdigit.
  - apply N.Div0.div_lt_upper_bound; lia.
  - apply N.mod_lt; discriminate.
Qed.

(** The sample UUID in mixed case, with a trailing comment. *)
Lemma uuidToBytes_round_trip_witness :
  uuidToBytes (str "00112233-4455-6677-8899-AABBccddEEFF (edge)")
  = [x00; x11; x22; x33; x44; x55; x66; x77; x88; x99; xaa; xbb; xcc; xdd; xee; xff].
Proof.
  apply uuidToBytes_round_trip.
  - reflexivity.
  - vm_compute. repeat split.
Defined.

(** X2. A UUID string with at most 2i characters other than hyphens gives
    0 for byte i: a string that is too short is padded with zero bytes, it
    is not refused. *)
Theorem uuidToBytes_short_is_zero_padded (uuid : jsstring) (i : nat) :
  (i < 16)%nat ->
  (length (remove_hyphens uuid) <= 2 * i)%nat ->
  nth_error (uuidToBytes uuid) i = Some x00.
Proof.
  intros Hi Hlen. unfold uuidToBytes.
  rewrite uuidToBytes_loop_nth by assumption.
  unfold substring. rewrite skipn_all2 by lia. now rewrite firstn_nil.
Qed.

(** "0011" has two pairs: byte 1 is 0x11 and byte 2 is 0. *)
Lemma uuidToBytes_short_is_zero_padded_witness :
  nth_error (uuidToBytes (str "00-11")) 1 = Some x11
  /\ nth_error (uuidToBytes (str "00-11")) 2 = Some x00.
Proof.
  split; [reflexivity|].
  apply uuidToBytes_short_is_zero_padded; [lia | simpl; lia].
Defined.

Lemma uuidToBytes_no_digits (uuid : jsstring) :
  remove_hyphens uuid = [] -> uuidToBytes uuid = repeat x00 16.
Proof. intros H. unfold uuidToBytes. rewrite H. reflexivity. Qed.

(** X3. When the configured UUID is the empty string (or hyphens only),
    the expected secret is sixteen zero bytes: every well-formed header
    whose secret field is all zero parses and leads to a connection
    attempt. *)
Theorem empty_uuid_accepts_zero_secret
  (env : Env) (addons : list byte) (hi lo : byte) (a : address)
  (payload : list byte) (w : World) :
  remove_hyphens (UUID env) = [] ->
  (length addons <= 255)%nat ->
  address_wf a ->
  let frame := header_bytes (repeat x00 16) addons hi lo a ++ payload in
  fst (parseHeader frame env w)
  = Ok (mkParsed (port_of hi lo) (render a)
          (byteLength (header_bytes (repeat x00 16) addons hi lo a)))
  /\ connectCalls (calls_during (processVlessHeader frame env) w)
     = [(resolveHost env (render a), port_of hi lo)].
Proof.
  intros Hu Had Ha frame.
  assert (Hp : fst (parseHeader frame env w)
               = Ok (mkParsed (port_of hi lo) (render a)
                       (byteLength (header_bytes (repeat x00 16) addons hi lo a)))).
  { subst frame. rewrite parseHeader_header_bytes; auto.
    symmetry. now apply uuidToBytes_no_digits. }
  split; [exact Hp|].
  now rewrite (connectCalls_parsed _ _ _ _ Hp).
Qed.

(** An empty UUID and a header of zeros for 1.2.3.4:443. *)
Lemma empty_uuid_accepts_zero_secret_witness :
  connectCalls
    (calls_during
       (processVlessHeader
          (header_bytes (repeat x00 16) [] x01 xbb (IPv4 x01 x02 x03 x04) ++ [])
          (mkEnv [] (str "/tunnel") [] []))
       (fresh open_network))
  = [(str "1.2.3.4", 443)].
Proof.
  apply (empty_uuid_accepts_zero_secret (mkEnv [] (str "/tunnel") [] []) []
           x01 xbb (IPv4 x01 x02 x03 x04) [] (fresh open_network)).
  - reflexivity.
  - simpl. lia.
  - exact I.
Defined.

(** ** [compareArrays]: exact equality *)

(** X4. [compareArrays] answers true exactly when the two arrays are the
    same bytes: equal length and equal content, never a prefix match. *)
Theorem compareArrays_exact (a b : list byte) :
  compareArrays a b = true <-> a = b.
Proof. apply compareArrays_true_iff. Qed.

(** Equal arrays compare true; a proper prefix compares false. *)
Lemma compareArrays_exact_witness :
  compareArrays [x01; x02] [x01; x02] = true
  /\ compareArrays [x01] [x01; x02] <> true.
Proof.
  split.
  - apply (proj2 (compareArrays_exact [x01; x02] [x01; x02])). reflexivity.
  - intros H. apply (proj1 (compareArrays_exact [x01] [x01; x02])) in H.
    discriminate.
Defined.

(** ** [processVlessHeader]: what a frame that parses looks like *)

Lemma to_N_inj (a b : byte) : Byte.to_N a = Byte.to_N b -> a = b.
Proof.
  intros H. pose proof (Byte.of_to_N a) as Ha. rewrite H, Byte.of_to_N in Ha.
  now injection Ha.
Qed.

Lemma nth_error_skipn_cons (m : list byte) (n : nat) (b : byte) :
  nth_error m n = Some b -> skipn n m = b :: skipn (S n) m.
Proof.
  revert m. induction n as [|n IH]; intros [|x m] H; try discriminate.
  - now injection H as ->.
  - cbn [skipn]. now apply IH.
Qed.

Lemma getUint8_inv (m : ArrayBuffer) (offset v : N) :
  getUint8 m offset = Ok v ->
  exists b, v = Byte.to_N b
    /\ skipn (N.to_nat offset) m = b :: skipn (N.to_nat (offset + 1)) m.
Proof.
  unfold getUint8.
  destruct (nth_error m (N.to_nat offset)) as [b|] eqn:E; [|discriminate].
  intros [= <-]. exists b. split; [reflexivity|].
  replace (N.to_nat (offset + 1)) with (S (N.to_nat offset)) by lia.
  now apply nth_error_skipn_cons.
Qed.

Lemma getUint16_inv (m : ArrayBuffer) (offset v : N) :
  getUint16 m offset = Ok v ->
  exists hi lo, v = port_of hi lo
    /\ skipn (N.to_nat offset) m = hi :: lo :: skipn (N.to_nat (offset + 2)) m.
Proof.
  unfold getUint16.
  destruct (nth_error m (N.to_nat offset)) as [hi|] eqn:E1; [|discriminate].
  destruct (nth_error m (N.to_nat (offset + 1))) as [lo|] eqn:E2; [|discriminate].
  intros [= <-]. exists hi, lo. split; [reflexivity|].
  rewrite (nth_error_skipn_cons _ _ _ E1).
  replace (S (N.to_nat offset)) with (N.to_nat (offset + 1)) by lia.
  rewrite (nth_error_skipn_cons _ _ _ E2).
  now replace (S (N.to_nat (offset + 1))) with (N.to_nat (offset + 2)) by lia.
Qed.

Lemma Uint8Array_inv (m : ArrayBuffer) (offset len : N) (bytes : list byte) :
  Uint8Array m offset len = Ok bytes ->
  skipn (N.to_nat offset) m = bytes ++ skipn (N.to_nat (offset + len)) m.
Proof.
  unfold Uint8Array.
  destruct (offset + len <=? byteLength m); [|discriminate].
  intros [= <-].
  replace (N.to_nat (offset + len)) with (N.to_nat len + N.to_nat offset)%nat
    by lia.
  rewrite <- skipn_skipn. now rewrite firstn_skipn.
Qed.

Lemma decodeAddress_inv (m : ArrayBuffer) (offset t : N) (h : jsstring)
  (offset' : N) :
  decodeAddress m offset t = Ok (h, offset') ->
  exists a,
    address_wf a /\ t = Byte.to_N (address_kind a) /\ h = render a
    /\ offset' = offset + addressLength a
    /\ skipn (N.to_nat offset) m
       = address_body a ++ skipn (N.to_nat offset') m.
Proof.
  unfold decodeAddress.
  destruct t as [|[[| |]|[| |]|]]; try discriminate.
  - (* 3: IPv6 *)
    destruct (Uint8Array m offset 16) as [bytes|] eqn:E; [|discriminate].
    intros [= <- <-]. exists (IPv6 bytes).
    pose proof (Uint8Array_length _ _ _ _ E) as Hl. unfold byteLength in Hl.
    repeat split; [simpl; lia|]. now apply Uint8Array_inv.
  - (* 2: domain *)
    destruct (getUint8 m offset) as [len|] eqn:E1; [|discriminate].
    destruct (Uint8Array m (offset + 1) len) as [name|] eqn:E2; [|discriminate].
    intros [= <- <-]. exists (Domain name).
    destruct (getUint8_inv _ _ _ E1) as (b & -> & Hs).
    pose proof (Uint8Array_length _ _ _ _ E2) as Hl. unfold byteLength in Hl.
    pose proof (Byte.to_N_bounded b).
    repeat split.
    + simpl. lia.
    + unfold addressLength. lia.
    + unfold address_body. rewrite Hl, byte_of_to_N, Hs, <- app_comm_cons. f_equal.
      now apply Uint8Array_inv.
  - (* 1: IPv4 *)
    destruct (Uint8Array m offset 4) as [bytes|] eqn:E; [|discriminate].
    intros [= <- <-].
    pose proof (Uint8Array_length _ _ _ _ E) as Hl. unfold byteLength in Hl.
    destruct bytes as [|a [|b [|c [|d [|? ?]]]]]; try (simpl in Hl; lia).
    exists (IPv4 a b c d). repeat split. now apply Uint8Array_inv.
Qed.

Lemma getUint8_in_bounds (m : ArrayBuffer) (offset v : N) :
  getUint8 m offset = Ok v -> offset < byteLength m.
Proof.
  unfold getUint8, byteLength.
  destruct (nth_error m (N.to_nat offset)) eqn:E; [|discriminate]. intros _.
  assert (N.to_nat offset < length m)%nat by (apply nth_error_Some; congruence).
  lia.
Qed.

(** A frame that parses is a well-formed header followed by a payload. *)
Lemma parseHeader_inv
  (m : ArrayBuffer) (env : Env) (w : World) (p : Parsed) :
  fst (parseHeader m env w) = Ok p ->
  exists (addons : list byte) (hi lo : byte) (a : address) (payload : list byte),
    m = header_bytes (uuidToBytes (UUID env)) addons hi lo a ++ payload
    /\ (length addons <= 255)%nat
    /\ address_wf a
    /\ p = mkParsed (port_of hi lo) (render a)
             (byteLength (header_bytes (uuidToBytes (UUID env)) addons hi lo a)).
Proof.
  unfold parseHeader. unfold_m. reduce_m.
  repeat next_read; try discriminate.
  intros [= <-].
  repeat match goal with
         | H : (_ =? _) = true |- _ => apply N.eqb_eq in H; subst
         end.
  match goal with
  | H : compareArrays _ _ = true |- _ => apply compareArrays_true_iff in H; subst
  end.
  match goal with
  | H : getUint8 m 0 = Ok 0 |- _ =>
      destruct (getUint8_inv _ _ _ H) as (b0 & Hb0 & S0)
  end.
  match goal with
  | H : Uint8Array m 1 16 = Ok _ |- _ => pose proof (Uint8Array_inv _ _ _ _ H) as S1
  end.
  match goal with
  | H : getUint8 m 17 = Ok ?n |- _ =>
      destruct (getUint8_inv _ _ _ H) as (bN & HbN & S2)
  end.
  subst.
  match goal with
  | H : getUint8 m (18 + _) = Ok 1 |- _ =>
      destruct (getUint8_inv _ _ _ H) as (bc & Hbc & S3);
      pose proof (getUint8_in_bounds _ _ _ H) as B3
  end.
  match goal with
  | H : getUint16 m _ = Ok _ |- _ =>
      destruct (getUint16_inv _ _ _ H) as (hi & lo & -> & S4)
  end.
  match goal with
  | H : getUint8 m (18 + _ + 1 + 2) = Ok _ |- _ =>
      destruct (getUint8_inv _ _ _ H) as (bk & -> & S5)
  end.
  match goal with
  | H : decodeAddress _ _ _ = Ok _ |- _ =>
      destruct (decodeAddress_inv _ _ _ _ _ H) as (a & Hwf & Hk & -> & -> & S6)
  end.
  apply to_N_inj in Hk. subst bk.
  assert (b0 = x00) by (apply to_N_inj; now rewrite <- Hb0). subst b0.
  assert (bc = x01) by (apply to_N_inj; now rewrite <- Hbc). subst bc.
  set (nA := Byte.to_N bN) in *.
  set (addons := firstn (N.to_nat nA) (skipn 18 m)).
  assert (Hla : length addons = N.to_nat nA).
  { subst addons. rewrite length_firstn, length_skipn.
    unfold byteLength in B3. lia. }
  pose proof (Byte.to_N_bounded bN) as HbN.
  assert (S2' : skipn 18 m = addons ++ skipn (N.to_nat (18 + nA)) m).
  { subst addons.
    replace (N.to_nat (18 + nA)) with (N.to_nat nA + 18)%nat by lia.
    rewrite <- skipn_skipn. now rewrite firstn_skipn. }
  exists addons, hi, lo, a,
    (skipn (N.to_nat (18 + nA + 1 + 2 + 1 + addressLength a)) m).
  assert (Hm : m = header_bytes (uuidToBytes (UUID env)) addons hi lo a
                   ++ skipn (N.to_nat (18 + nA + 1 + 2 + 1 + addressLength a)) m).
  { unfold header_bytes.
    change (skipn (N.to_nat 0) m) with m in S0. rewrite S0 at 1.
    change (N.to_nat (0 + 1)) with (N.to_nat 1). rewrite S1.
    change (N.to_nat (1 + 16)) with (N.to_nat 17). rewrite S2.
    change (N.to_nat (17 + 1)) with 18%nat. rewrite S2', S3.
    rewrite S4, S5, S6.
    rewrite Hla. subst nA. rewrite N2Nat.id, byte_of_to_N.
    generalize (uuidToBytes (UUID env)). intros secret. list_eq. }
  split; [exact Hm|]. split; [lia|]. split; [exact Hwf|].
  f_equal.
  rewrite (header_bytes_length (uuidToBytes (UUID env)) addons hi lo a)
    by (auto using uuidToBytes_length; lia).
  rewrite Hla. subst nA. rewrite N2Nat.id. reflexivity.
Qed.

(** X5. The parser accepts the wire format and nothing else: a frame that
    parses is version 0, the configured secret, a length byte and that many
    add-on bytes, command 1, two port bytes, an address of kind 1, 2 or 3,
    and a payload; the parsed port, host and offset are those of that
    header. *)
Theorem parsed_frame_is_wire_format
  (m : ArrayBuffer) (env : Env) (w : World) (p : Parsed) :
  fst (parseHeader m env w) = Ok p ->
  exists (addons : list byte) (hi lo : byte) (a : address) (payload : list byte),
    m = header_bytes (uuidToBytes (UUID env)) addons hi lo a ++ payload
    /\ (length addons <= 255)%nat
    /\ address_wf a
    /\ p = mkParsed (port_of hi lo) (render a)
             (byteLength (header_bytes (uuidToBytes (UUID env)) addons hi lo a)).
Proof. apply parseHeader_inv. Qed.

(** The sample header followed by "P". *)
Lemma parsed_frame_is_wire_format_witness :
  exists (addons : list byte) (hi lo : byte) (a : address) (payload : list byte),
    sample_header ++ [x50]
    = header_bytes (uuidToBytes (UUID sample_env)) addons hi lo a ++ payload
    /\ (length addons <= 255)%nat
    /\ address_wf a
    /\ mkParsed 443 (str "1.2.3.4") 26
       = mkParsed (port_of hi lo) (render a)
           (byteLength (header_bytes (uuidToBytes (UUID sample_env)) addons hi lo a)).
Proof.
  apply (parsed_frame_is_wire_format (sample_header ++ [x50]) sample_env
           (fresh open_network) (mkParsed 443 (str "1.2.3.4") 26)).
  reflexivity.
Defined.

(** X6. [connect] is never called for a frame that does not start with the
    version byte 0 followed by the sixteen bytes of the configured
    secret. *)
Theorem no_connect_without_secret (m : ArrayBuffer) (env : Env) (w : World) :
  connectCalls (calls_during (processVlessHeader m env) w) <> [] ->
  firstn 17 m = x00 :: uuidToBytes (UUID env).
Proof.
  intros Hc. destruct (fst (parseHeader m env w)) as [p|e] eqn:H.
  - destruct (parseHeader_inv _ _ _ _ H)
      as (addons & hi & lo & a & payload & -> & _).
    unfold header_bytes. rewrite <- app_comm_cons.
    pose proof (uuidToBytes_length (UUID env)) as Hl.
    set (secret := uuidToBytes (UUID env)) in *. clearbody secret.
    change 17%nat with (S 16). rewrite firstn_cons. f_equal.
    rewrite <- app_assoc, <- Hl, firstn_app, Nat.sub_diag, firstn_all, firstn_O.
    apply app_nil_r.
  - destruct (no_connect_on_throw _ _ _ _ H) as [_ E]. contradiction.
Qed.

(** The sample header makes a connection, and starts with 0 and the
    secret. *)
Lemma no_connect_without_secret_witness :
  firstn 17 sample_header = x00 :: uuidToBytes (UUID sample_env).
Proof.
  apply (no_connect_without_secret sample_header sample_env (fresh open_network)).
  vm_compute. discriminate.
Defined.

(** X7. When [processVlessHeader] returns, the frame is split in two with
    nothing lost: [rawVlessHeader] is its beginning, and the one chunk
    written to the new socket is the rest.  The header bytes themselves
    are not written. *)
Theorem frame_split_into_header_and_payload
  (m : ArrayBuffer) (env : Env) (w : World) (h : VlessHeader) :
  fst (processVlessHeader m env w) = Ok h ->
  exists data,
    written (remoteSocket h) (calls_during (processVlessHeader m env) w) = [data]
    /\ rawVlessHeader h ++ data = m.
Proof.
  intros Hok. destruct (fst (parseHeader m env w)) as [p|e] eqn:H.
  - pose proof (processVlessHeader_parsed _ _ _ _ H) as E. cbv zeta in E.
    destruct (network w (resolveHost env (parsed_host p)) (parsed_port p));
      rewrite E in Hok; try discriminate.
    injection Hok as <-. cbn [remoteSocket rawVlessHeader].
    exists (skipn (N.to_nat (parsed_offset p)) m). split.
    + erewrite calls_during_logs by (rewrite E; reflexivity).
      rewrite written_app, written_cons, written_app, written_compared.
      unfold written. cbn [flat_map app]. now rewrite Nat.eqb_refl.
    + apply firstn_skipn.
  - rewrite (processVlessHeader_throw _ _ _ _ H) in Hok. discriminate.
Qed.

(** The sample header followed by "GET": the socket is written "GET". *)
Lemma frame_split_into_header_and_payload_witness :
  exists data,
    written 0%nat
      (calls_during (processVlessHeader (sample_header ++ [x47; x45; x54]) sample_env)
         (fresh open_network))
    = [data]
    /\ sample_header ++ data = sample_header ++ [x47; x45; x54].
Proof.
  apply (frame_split_into_header_and_payload
           (sample_header ++ [x47; x45; x54]) sample_env (fresh open_network)
           (mkVlessHeader 0%nat (str "1.2.3.4") 443 sample_header)).
  reflexivity.
Defined.

(** ** [connect] fails *)

(** X8. When [fetch] rejects the connection, [processVlessHeader] throws
    "Failed to connect to host:port: cause" with the resolved host, nothing
    is written and no socket is opened; the handler registers no relay
    listener and closes the server socket with 1011 and that message. *)
Theorem connect_failure_closes_session
  (m : ArrayBuffer) (env : Env) (w : World) (p : Parsed) (cause : jsstring) :
  fst (parseHeader m env w) = Ok p ->
  network w (resolveHost env (parsed_host p)) (parsed_port p)
  = FetchRejected cause ->
  let host := resolveHost env (parsed_host p) in
  let reason :=
    str "Failed to connect to " ++ host ++ str ":" ++ toString10 (parsed_port p)
      ++ str ": " ++ cause in
  let w' := runListener env m OnFirstMessage w in
  fst (processVlessHeader m env w)
  = Throw (UpstreamConnectFailed host (parsed_port p) cause)
  /\ (forall s, written s (log w') = written s (log w))
  /\ opened w' = opened w
  /\ listeners w' = listeners w
  /\ closed w' = true
  /\ closeCalls (log w') = closeCalls (log w) ++ [(1011, reason)].
Proof.
  intros H Hnet host reason w'.
  pose proof (processVlessHeader_parsed _ _ _ _ H) as E. cbv zeta in E.
  fold host in E, Hnet. rewrite Hnet in E.
  subst w'. rewrite runListener_complete, E.
  cbn [fst snd serverClose log opened listeners closed add_logs].
  split; [reflexivity|]. split; [|repeat split].
  - intros s. rewrite !written_app, written_cons, written_app, written_compared.
    unfold written. cbn [flat_map app]. now rewrite !app_nil_r.
  - unfold closeCalls. rewrite !flat_map_app. cbn [flat_map].
    rewrite !flat_map_app.
    assert (Hc : flat_map (fun c => match c with
                   | CallServerClose code r => [(code, r)] | _ => [] end)
                   (compared m env) = [])
      by (unfold compared; repeat next_read; reflexivity).
    rewrite Hc. cbn [flat_map app]. rewrite <- app_assoc. reflexivity.
Qed.

(** The sample header when the connection is refused. *)
Lemma connect_failure_closes_session_witness :
  closeCalls (log (runListener sample_env sample_header OnFirstMessage
                     (fresh refusing_network)))
  = [(1011, str "Failed to connect to 1.2.3.4:443: refused")]
  /\ listeners (runListener sample_env sample_header OnFirstMessage
                  (fresh refusing_network)) = [].
Proof.
  destruct (connect_failure_closes_session sample_header sample_env
              (fresh refusing_network) (mkParsed 443 (str "1.2.3.4") 26)
              (str "refused"))
    as (_ & _ & _ & Hl & _ & Hc); [reflexivity | reflexivity |].
  split; [exact Hc | exact Hl].
Defined.

(** ** [processVlessHeader]: the command and the address kind *)

Section AfterTheSecret.

Variables (env : Env) (addons : list byte).
Hypothesis Haddons : (length addons <= 255)%nat.

Let secret := uuidToBytes (UUID env).
Let nB := byte_of_N (N.of_nat (length addons)).

(** The reads up to the add-ons, for any bytes after them. *)
Lemma parseHeader_after_addons (tail : list byte) (w : World) :
  parseHeader (x00 :: secret ++ nB :: addons ++ tail) env w
  = (let m := x00 :: secret ++ nB :: addons ++ tail in
     let offset := 18 + N.of_nat (length addons) in
     match getUint8 m offset with
     | Ok command =>
         if negb (command =? 1) then Throw (UnsupportedCommand command)
         else
           match getUint16 m (offset + 1) with
           | Ok port =>
               match getUint8 m (offset + 1 + 2) with
               | Ok addressType =>
                   match decodeAddress m (offset + 1 + 2 + 1) addressType with
                   | Ok (host, offset') => Ok (mkParsed port host offset')
                   | Throw e => Throw e
                   end
               | Throw e => Throw e
               end
           | Throw e => Throw e
           end
     | Throw e => Throw e
     end,
     add_log (CallCompareArrays secret secret) w).
Proof.
  pose proof (uuidToBytes_length (UUID env)) as Hl. fold secret in Hl.
  unfold parseHeader. unfold_m. cbv zeta.
  change (getUint8 (x00 :: secret ++ nB :: addons ++ tail) 0) with (@Ok N 0).
  reduce_m. change (0 =? 0) with true. reduce_m.
  rewrite (Uint8Array_at [x00] secret (nB :: addons ++ tail))
    by (reflexivity || len_eq).
  reduce_m. fold secret.
  replace (compareArrays secret secret) with true
    by (symmetry; now apply compareArrays_true_iff).
  reduce_m.
  rewrite (getUint8_split _ (x00 :: secret) nB (addons ++ tail))
    by (reflexivity || len_eq).
  reduce_m. subst nB. rewrite byte_of_N_to_N by lia.
  repeat next_read; reflexivity.
Qed.

End AfterTheSecret.

Lemma decodeAddress_invalid (m : ArrayBuffer) (offset t : N) :
  t <> 1 -> t <> 2 -> t <> 3 ->
  decodeAddress m offset t = Throw (InvalidAddressKind t).
Proof.
  intros H1 H2 H3. unfold decodeAddress.
  destruct t as [|[[p|p|]|[p|p|]|]]; try reflexivity; contradiction.
Qed.

(** X9. A header whose version, secret and add-ons are in order but whose
    command byte is not 1 fails with UnsupportedCommand carrying that byte,
    whatever follows it, and [connect] is not called. *)
Theorem unsupported_command_no_connect
  (env : Env) (addons : list byte) (command : byte) (rest : list byte)
  (w : World) :
  (length addons <= 255)%nat ->
  command <> x01 ->
  let frame :=
    x00 :: uuidToBytes (UUID env)
        ++ byte_of_N (N.of_nat (length addons)) :: addons ++ command :: rest in
  fst (processVlessHeader frame env w)
  = Throw (UnsupportedCommand (Byte.to_N command))
  /\ connectCalls (calls_during (processVlessHeader frame env) w) = [].
Proof.
  intros Had Hc frame. apply no_connect_on_throw. subst frame.
  rewrite parseHeader_after_addons by assumption. cbv zeta. cbn [fst].
  rewrite (getUint8_split _
             (x00 :: uuidToBytes (UUID env)
                 ++ byte_of_N (N.of_nat (length addons)) :: addons)
             command rest)
    by (list_eq || (pose proof (uuidToBytes_length (UUID env)); len_eq)).
  assert (Hn : Byte.to_N command <> 1)
    by (intros E; apply Hc; now apply to_N_inj).
  apply N.eqb_neq in Hn. now rewrite Hn.
Qed.

(** Command 2 (UDP) after the sample secret and no add-ons. *)
Lemma unsupported_command_no_connect_witness :
  fst (processVlessHeader
         (x00 :: uuidToBytes (UUID sample_env)
              ++ byte_of_N (N.of_nat (length (@nil byte))) :: [] ++ x02
              :: [x01; xbb; x01; x01; x02; x03; x04])
         sample_env (fresh open_network))
  = Throw (UnsupportedCommand 2).
Proof.
  apply (unsupported_command_no_connect sample_env [] x02
           [x01; xbb; x01; x01; x02; x03; x04] (fresh open_network)).
  - simpl. lia.
  - discriminate.
Defined.

(** X10. A header that is in order up to the port but whose address-kind
    byte is not 1, 2 or 3 fails with InvalidAddressKind carrying that byte,
    whatever follows it, and [connect] is not called. *)
Theorem invalid_address_kind_no_connect
  (env : Env) (addons : list byte) (hi lo kind : byte) (rest : list byte)
  (w : World) :
  (length addons <= 255)%nat ->
  kind <> x01 -> kind <> x02 -> kind <> x03 ->
  let frame :=
    x00 :: uuidToBytes (UUID env)
        ++ byte_of_N (N.of_nat (length addons)) :: addons
        ++ x01 :: hi :: lo :: kind :: rest in
  fst (processVlessHeader frame env w)
  = Throw (InvalidAddressKind (Byte.to_N kind))
  /\ connectCalls (calls_during (processVlessHeader frame env) w) = [].
Proof.
  intros Had H1 H2 H3 frame. apply no_connect_on_throw. subst frame.
  rewrite parseHeader_after_addons by assumption. cbv zeta. cbn [fst].
  pose proof (uuidToBytes_length (UUID env)) as Hl.
  rewrite (getUint8_split _
             (x00 :: uuidToBytes (UUID env)
                 ++ byte_of_N (N.of_nat (length addons)) :: addons)
             x01 (hi :: lo :: kind :: rest))
    by (list_eq || len_eq).
  change (Byte.to_N x01 =? 1) with true. cbn [negb].
  rewrite (getUint16_split _
             (x00 :: uuidToBytes (UUID env)
                 ++ byte_of_N (N.of_nat (length addons)) :: addons ++ [x01])
             hi lo (kind :: rest))
    by (list_eq || len_eq).
  rewrite (getUint8_split _
             (x00 :: uuidToBytes (UUID env)
                 ++ byte_of_N (N.of_nat (length addons)) :: addons
                 ++ [x01; hi; lo])
             kind rest)
    by (list_eq || len_eq).
  rewrite decodeAddress_invalid; [reflexivity| | |];
    intros E; [apply H1|apply H2|apply H3]; now apply to_N_inj.
Qed.

(** Address kind 4 after the sample secret, no add-ons, command 1 and
    port 443. *)
Lemma invalid_address_kind_no_connect_witness :
  fst (processVlessHeader
         (x00 :: uuidToBytes (UUID sample_env)
              ++ byte_of_N (N.of_nat (length (@nil byte))) :: []
              ++ x01 :: x01 :: xbb :: x04 :: [x01; x02; x03; x04])
         sample_env (fresh open_network))
  = Throw (InvalidAddressKind 4).
Proof.
  apply (invalid_address_kind_no_connect sample_env [] x01 xbb x04
           [x01; x02; x03; x04] (fresh open_network)).
  - simpl. lia.
  - discriminate.
  - discriminate.
  - discriminate.
Defined.

(** X11. The add-on bytes are skipped, not read: two well-formed headers
    that differ only in the content of their add-ons (same length) parse to
    the same port, host and offset and lead to the same [connect] call. *)
Theorem addons_content_is_ignored
  (env : Env) (addons addons' : list byte) (hi lo : byte) (a : address)
  (payload : list byte) (w : World) :
  length addons = length addons' ->
  (length addons <= 255)%nat ->
  address_wf a ->
  let frame := header_bytes (uuidToBytes (UUID env)) addons hi lo a ++ payload in
  let frame' := header_bytes (uuidToBytes (UUID env)) addons' hi lo a ++ payload in
  fst (parseHeader frame env w) = fst (parseHeader frame' env w)
  /\ connectCalls (calls_during (processVlessHeader frame env) w)
     = connectCalls (calls_during (processVlessHeader frame' env) w)
  /\ exists p, fst (parseHeader frame env w) = Ok p.
Proof.
  intros Hlen Had Ha frame frame'.
  pose proof (uuidToBytes_length (UUID env)) as Hl.
  assert (Hp : fst (parseHeader frame env w)
               = Ok (mkParsed (port_of hi lo) (render a)
                       (byteLength (header_bytes (uuidToBytes (UUID env))
                                      addons hi lo a))))
    by (subst frame; rewrite parseHeader_header_bytes; auto).
  assert (Hp' : fst (parseHeader frame' env w)
                = Ok (mkParsed (port_of hi lo) (render a)
                        (byteLength (header_bytes (uuidToBytes (UUID env))
                                       addons hi lo a)))).
  { subst frame'. rewrite parseHeader_header_bytes; auto; [|lia].
    cbn [fst]. do 2 f_equal.
    rewrite !header_bytes_length by (auto; lia). now rewrite Hlen. }
  split; [now rewrite Hp, Hp'|]. split; [|eauto].
  now rewrite (connectCalls_parsed _ _ _ _ Hp), (connectCalls_parsed _ _ _ _ Hp').
Qed.

(** The sample header with the add-ons aa bb, then with cc dd. *)
Lemma addons_content_is_ignored_witness :
  fst (parseHeader
         (header_bytes (uuidToBytes (UUID sample_env)) [xaa; xbb] x01 xbb
            (IPv4 x01 x02 x03 x04) ++ [x50])
         sample_env (fresh open_network))
  = fst (parseHeader
           (header_bytes (uuidToBytes (UUID sample_env)) [xcc; xdd] x01 xbb
              (IPv4 x01 x02 x03 x04) ++ [x50])
           sample_env (fresh open_network)).
Proof.
  apply (addons_content_is_ignored sample_env [xaa; xbb] [xcc; xdd] x01 xbb
           (IPv4 x01 x02 x03 x04) [x50] (fresh open_network)).
  - reflexivity.
  - simpl. lia.
  - exact I.
Defined.

(** ** Sessions: where connections go *)

Lemma resolveHost_pinned (env : Env) (h : jsstring) :
  PROXY_HOST env <> [] -> resolveHost env h = PROXY_HOST env.
Proof.
  intros H. unfold resolveHost, streq.
  destruct (jsstring_eq_dec (PROXY_HOST env) []); [contradiction|].
  destruct (jsstring_eq_dec h (PROXY_HOST env)); [assumption|reflexivity].
Qed.

(** The hosts a listener connects to are resolved hosts. *)
Lemma callListener_connects (env : Env) (data : ArrayBuffer) (l : listener)
  (w : World) :
  Forall (fun hp => exists h, fst hp = resolveHost env h) (connectCalls (log w)) ->
  Forall (fun hp => exists h, fst hp = resolveHost env h)
         (connectCalls (log (callListener env data l w))).
Proof.
  intros Hw. destruct l as [|socket]; cbn [callListener].
  - destruct (handler_begin_connects env data w) as (cs & -> & Hcs).
    apply Forall_app. now split.
  - cbn. rewrite connectCalls_app. apply Forall_app. split; [assumption|].
    constructor.
Qed.

Lemma session_connects (env : Env) (events : list event) :
  forall w : World,
    Forall (fun hp => exists h, fst hp = resolveHost env h) (connectCalls (log w)) ->
    Forall (fun hp => exists h, fst hp = resolveHost env h)
           (connectCalls (log (session env events w))).
Proof.
  induction events as [|ev events IH]; intros w Hw; [exact Hw|].
  change (session env (ev :: events) w)
    with (session env events (deliver env ev w)).
  apply IH. destruct ev as [data|i|socket chunk]; cbn [deliver].
  - generalize (listeners w). intros ls. revert w Hw.
    induction ls as [|l ls IHl]; intros w Hw; [exact Hw|].
    cbn [fold_left]. apply IHl. now apply callListener_connects.
  - destruct (nth_error (pending w) i) as [c|]; [|exact Hw].
    pose proof (handler_resume_world c (unsuspend i w)) as Hr. cbv zeta in Hr.
    destruct Hr as (_ & _ & _ & _ & _ & _ & Hc & _). rewrite Hc. exact Hw.
  - exact Hw.
Qed.

(** X12. Egress pinning: when [PROXY_HOST] is set, every [connect] call of
    every session, whatever the frames ask for, has [PROXY_HOST] as its
    host. *)
Theorem proxy_host_pins_every_connection
  (network : jsstring -> N -> outcome) (request : Request) (env : Env)
  (events : list event) :
  PROXY_HOST env <> [] ->
  Forall (fun hp => fst hp = PROXY_HOST env)
         (connectCalls (log (snd (serve network request env events)))).
Proof.
  intros Hp.
  assert (H : Forall (fun hp => exists h, fst hp = resolveHost env h)
                (connectCalls (log (snd (serve network request env events))))).
  { unfold serve, handleVless.
    destruct (notWebSocketUpgrade (upgradeHeader request)); cbn.
    - constructor.
    - apply session_connects. constructor. }
  eapply Forall_impl; [|exact H].
  intros hp [h ->]. now apply resolveHost_pinned.
Qed.

(** Two frames asking for 1.2.3.4:443 with [PROXY_HOST] 10.0.0.1. *)
Lemma proxy_host_pins_every_connection_witness :
  connectCalls
    (log (snd (serve open_network upgrade_request pinned_env
                 [Frame sample_header; Frame sample_header])))
  = [(str "10.0.0.1", 443); (str "10.0.0.1", 443)]
  /\ Forall (fun hp => fst hp = str "10.0.0.1")
       (connectCalls
          (log (snd (serve open_network upgrade_request pinned_env
                       [Frame sample_header; Frame sample_header])))).
Proof.
  split; [reflexivity|].
  apply (proxy_host_pins_every_connection open_network upgrade_request pinned_env).
  discriminate.
Defined.

(** ** Sessions: the relay towards the remote socket *)






(** ** [processVlessHeader]: bounds and counts *)

Lemma address_length_bounds (a : address) :
  address_wf a -> 1 <= addressLength a <= 256.
Proof.
  destruct a as [? ? ? ?|name|bytes]; simpl address_wf; unfold addressLength; lia.
Qed.

(** X15. For every frame that parses: the port is below 65536, and the
    header ends between byte 23 and byte 533 of the frame and not after
    its end. *)
Theorem parsed_header_bounds
  (m : ArrayBuffer) (env : Env) (w : World) (p : Parsed) :
  fst (parseHeader m env w) = Ok p ->
  parsed_port p < 65536
  /\ 23 <= parsed_offset p <= 533
  /\ parsed_offset p <= byteLength m.
Proof.
  intros H. pose proof (parseHeader_in_bounds _ _ _ _ H) as Hb.
  destruct (parseHeader_inv _ _ _ _ H)
    as (addons & hi & lo & a & payload & _ & Had & Ha & ->).
  cbn [parsed_port parsed_offset] in *.
  rewrite (header_bytes_length _ addons hi lo a) in *
    by (auto using uuidToBytes_length).
  pose proof (address_length_bounds a Ha).
  pose proof (Byte.to_N_bounded hi). pose proof (Byte.to_N_bounded lo).
  unfold port_of. repeat split; lia.
Qed.

(** The sample header: port 443, 26 bytes. *)
Lemma parsed_header_bounds_witness :
  (443 < 65536 /\ 23 <= 26 <= 533 /\ 26 <= byteLength (sample_header ++ [x50])).
Proof.
  apply (parsed_header_bounds (sample_header ++ [x50]) sample_env
           (fresh open_network) (mkParsed 443 (str "1.2.3.4") 26)).
  reflexivity.
Defined.

(** X16. One call of [processVlessHeader] makes exactly one [connect] call
    when the header parses and none when it does not. *)
Theorem one_connect_per_parsed_header (m : ArrayBuffer) (env : Env) (w : World) :
  length (connectCalls (calls_during (processVlessHeader m env) w))
  = match fst (parseHeader m env w) with
    | Ok _ => 1%nat
    | Throw _ => 0%nat
    end.
Proof.
  destruct (fst (parseHeader m env w)) as [p|e] eqn:H.
  - now rewrite (connectCalls_parsed _ _ _ _ H).
  - destruct (no_connect_on_throw _ _ _ _ H) as [_ E]. now rewrite E.
Qed.

(** ** The IPv6 text determines the address *)

Lemma hexdigit_not_colon (d : N) : (hexdigit d =? 58) = false.
Proof.
  unfold hexdigit. destruct (d <? 10) eqn:E; apply N.eqb_neq.
  - apply N.ltb_lt in E. lia.
  - lia.
Qed.

Lemma remove_colons_flat (groups : list jsstring) :
  Forall (Forall (fun c => (c =? 58) = false)) groups ->
  filter (fun c => negb (c =? 58))
    (flat_map (fun g : jsstring => str ":" ++ g) groups)
  = concat groups
  /\ forall g, In g groups -> filter (fun c => negb (c =? 58)) g = g.
Proof.
  assert (Hf : forall l : jsstring,
             Forall (fun c => (c =? 58) = false) l ->
             filter (fun c => negb (c =? 58)) l = l).
  { intros l Hl. induction Hl as [|c l Hc _ IHl]; [reflexivity|].
    cbn [filter]. rewrite Hc. cbn [negb]. now rewrite IHl. }
  intros H. split.
  - induction groups as [|g groups IH]; [reflexivity|].
    assert (Hc : flat_map (fun g : jsstring => str ":" ++ g) (g :: groups)
                 = (str ":" ++ g)
                     ++ flat_map (fun g : jsstring => str ":" ++ g) groups)
      by reflexivity.
    rewrite Hc, !filter_app.
    change (concat (g :: groups)) with (g ++ concat groups). f_equal.
    + exact (Hf g (Forall_inv H)).
    + exact (IH (Forall_inv_tail H)).
  - intros g Hin. apply Hf. rewrite Forall_forall in H. now apply H.
Qed.

Lemma hex_groups_no_colon (bytes : list byte) :
  Forall (Forall (fun c => (c =? 58) = false)) (hex_groups bytes).
Proof.
  assert (H : forall n (l : list byte), (length l <= n)%nat ->
              Forall (Forall (fun c => (c =? 58) = false)) (hex_groups l)).
  { induction n as [|n IH]; intros l Hl.
    - destruct l; [constructor | simpl in Hl; lia].
    - destruct l as [|a [|b rest]]; try constructor.
      + unfold hex2. repeat constructor; apply hexdigit_not_colon.
      + apply IH. simpl in Hl. lia. }
  now apply (H (length bytes)).
Qed.

Lemma concat_hex_groups (n : nat) :
  forall bytes : list byte,
    length bytes = (2 * n)%nat -> concat (hex_groups bytes) = flat_map hex2 bytes.
Proof.
  induction n as [|n IH]; intros bytes Hl.
  - now destruct bytes.
  - destruct bytes as [|a [|b rest]]; try (simpl in Hl; lia).
    cbn [hex_groups concat flat_map]. rewrite IH by (simpl in Hl; lia).
    now rewrite <- app_assoc.
Qed.

(** X17. The text of an IPv6 address has 39 characters and determines the
    address: with its colons removed it spells the sixteen bytes in
    hexadecimal, two digits a byte, in order. *)
Theorem ipv6_text_spells_address (bytes : list byte) :
  length bytes = 16%nat ->
  length (ipv6_reduce [] 0 bytes) = 39%nat
  /\ spelled bytes (filter (fun c => negb (c =? 58)) (ipv6_reduce [] 0 bytes)).
Proof.
  intros Hl. rewrite (ipv6_reduce_spec bytes Hl). unfold spec_ipv6_text. split.
  - do 16 (destruct bytes as [|? bytes]; [discriminate|]).
    destruct bytes; [reflexivity|discriminate].
  - destruct (hex_groups bytes) as [|g groups] eqn:E.
    + destruct bytes as [|a [|b rest]]; discriminate.
    + pose proof (hex_groups_no_colon bytes) as Hn. rewrite E in Hn.
      destruct (remove_colons_flat groups (Forall_inv_tail Hn)) as [Hr _].
      destruct (remove_colons_flat (g :: groups) Hn) as [_ Hg].
      assert (Ht : filter (fun c => negb (c =? 58)) (join (str ":") (g :: groups))
                   = flat_map hex2 bytes ++ []).
      { rewrite app_nil_r, <- (concat_hex_groups 8 bytes Hl), E.
        rewrite join_cons, filter_app.
        change (concat (g :: groups)) with (g ++ concat groups). f_equal.
        - exact (Hg g (or_introl eq_refl)).
        - exact Hr. }
      rewrite Ht. apply spelled_hex2.
Qed.

(** The loopback address. *)
Lemma ipv6_text_spells_address_witness :
  length (str "0000:0000:0000:0000:0000:0000:0000:0001") = 39%nat
  /\ spelled [x00; x00; x00; x00; x00; x00; x00; x00;
              x00; x00; x00; x00; x00; x00; x00; x01]
       (filter (fun c => negb (c =? 58))
          (str "0000:0000:0000:0000:0000:0000:0000:0001")).
Proof.
  apply (ipv6_text_spells_address
           [x00; x00; x00; x00; x00; x00; x00; x00;
            x00; x00; x00; x00; x00; x00; x00; x01]).
  reflexivity.
Defined.

(** ** The IPv4 text determines the address *)

Lemma uint_units_inj (d d' : Decimal.uint) :
  uint_units d = uint_units d' -> d = d'.
Proof.
  revert d'. induction d as [|d IH|d IH|d IH|d IH|d IH|d IH|d IH|d IH|d IH|d IH];
    intros [|d'|d'|d'|d'|d'|d'|d'|d'|d'|d'] H;
    cbn [uint_units] in H; try discriminate; try reflexivity;
    injection H as H; f_equal; now apply IH.
Qed.

Lemma uint_units_no_dot (d : Decimal.uint) :
  Forall (fun c => c <> 46) (uint_units d).
Proof.
  induction d; cbn [uint_units]; constructor; auto; discriminate.
Qed.

Lemma toString10_inj (n n' : N) : toString10 n = toString10 n' -> n = n'.
Proof.
  unfold toString10. intros H. apply uint_units_inj in H.
  now apply DecimalN.Unsigned.to_uint_inj.
Qed.

(** Two texts that agree up to and after their first dot. *)
Lemma split_at_dot (x : jsstring) :
  forall x' r r' : jsstring,
    Forall (fun c => c <> 46) x -> Forall (fun c => c <> 46) x' ->
    x ++ 46 :: r = x' ++ 46 :: r' -> x = x' /\ r = r'.
Proof.
  induction x as [|c x IH]; intros [|c' x'] r r' Hx Hx' H.
  - now injection H.
  - injection H as <- _. inversion Hx' as [|? ? Hc]. now contradiction Hc.
  - injection H as -> _. inversion Hx as [|? ? Hc]. now contradiction Hc.
  - injection H as <- H. inversion Hx. inversion Hx'. subst.
    destruct (IH x' r r') as [-> ->]; auto.
Qed.

(** X18. The dot-decimal text of an IPv4 address determines the address:
    two addresses with the same text are the same four bytes. *)
Theorem ipv4_text_determines_address (a b c d a' b' c' d' : byte) :
  render (IPv4 a b c d) = render (IPv4 a' b' c' d') ->
  a = a' /\ b = b' /\ c = c' /\ d = d'.
Proof.
  intros H.
  change (toString10 (Byte.to_N a) ++ 46 :: toString10 (Byte.to_N b)
            ++ 46 :: toString10 (Byte.to_N c) ++ 46 :: toString10 (Byte.to_N d)
          = toString10 (Byte.to_N a') ++ 46 :: toString10 (Byte.to_N b')
            ++ 46 :: toString10 (Byte.to_N c') ++ 46 :: toString10 (Byte.to_N d'))
    in H.
  apply split_at_dot in H; try apply uint_units_no_dot. destruct H as [Ha H].
  apply split_at_dot in H; try apply uint_units_no_dot. destruct H as [Hb H].
  apply split_at_dot in H; try apply uint_units_no_dot. destruct H as [Hc Hd].
  repeat split; apply to_N_inj; now apply toString10_inj.
Qed.

(** 1.2.3.4 read back from its text. *)
Lemma ipv4_text_determines_address_witness :
  x01 = x01 /\ x02 = x02 /\ x03 = x03 /\ x04 = x04.
Proof.
  apply (ipv4_text_determines_address x01 x02 x03 x04 x01 x02 x03 x04).
  reflexivity.
Defined.
